(** * deadline.client.job_bundle: the job-history bundle directory allocator

    A shallow embedding of [create_job_history_bundle_dir]
    (src/deadline/client/job_bundle/__init__.py) and of the parts of the
    Python runtime it calls, followed by the properties of the allocator.

    Conventions.
    - A Python [str] is a [list ascii]; a character is one of the first 256
      Unicode code points (Latin-1), [N_of_ascii] being its code point.
    - A Python [int] is a [Z].
    - The filesystem is explicit state: the allocator takes a filesystem and
      returns an outcome together with the filesystem it leaves behind. *)

From Stdlib Require Import ZArith Ascii String List Sorted Permutation Lia Bool.
From stdpp Require Import base decidable option list strings.
Import ListNotations.

Local Open Scope Z_scope.
Local Open Scope list_scope.

#[local] Arguments Ascii.eqb : simpl never.

(* ===================================================================== *)
(** * Python strings                                                      *)
(* ===================================================================== *)

Module Py.

Definition str := list ascii.

(** A string literal of the source. *)
Definition lit (s : string) : str := list_ascii_of_string s.

Definition code (c : ascii) : N := N_of_ascii c.

Definition in_range (lo hi n : N) : bool := ((lo <=? n) && (n <=? hi))%N.

(** [len(s)] as a Python int. *)
Definition len (s : str) : Z := Z.of_nat (length s).

(** [c in chars] for a one-character string [c]. *)
Definition char_in (c : ascii) (chars : str) : bool :=
  existsb (fun d => Ascii.eqb c d) chars.

(** [str.isalnum] on one character: the character is a letter, a decimal
    digit, a digit or numeric in the Unicode database.  Restricted to
    code points below 256 these are 0-9, A-Z, a-z and, in the upper half,
    U+AA, U+B2, U+B3, U+B5, U+B9, U+BA, U+BC-U+BE, U+C0-U+D6, U+D8-U+F6 and
    U+F8-U+FF. *)
Definition isalnum (c : ascii) : bool :=
  let n := code c in
  in_range 48 57 n || in_range 65 90 n || in_range 97 122 n
  || (n =? 170)%N || (n =? 178)%N || (n =? 179)%N || (n =? 181)%N
  || (n =? 185)%N || (n =? 186)%N || in_range 188 190 n
  || in_range 192 214 n || in_range 216 246 n || in_range 248 255 n.

(** ["".join(parts)]. *)
Definition join_empty (parts : list str) : str := concat parts.

(** [sep.join(parts)]. *)
Fixpoint join_with (sep : str) (parts : list str) : str :=
  match parts with
  | [] => []
  | [p] => p
  | p :: rest => p ++ sep ++ join_with sep rest
  end.

(** [s.startswith(p)]. *)
Fixpoint startswith (p s : str) : bool :=
  match p, s with
  | [], _ => true
  | c :: p', d :: s' => Ascii.eqb c d && startswith p' s'
  | _ :: _, [] => false
  end.

(** [s.endswith(p)]. *)
Definition endswith (p s : str) : bool := startswith (rev p) (rev s).

(** [s[i:]] and [s[:i]], with Python's reading of a negative bound. *)
Definition slice_from (i : Z) (s : str) : str :=
  if i <? 0 then skipn (Z.to_nat (len s + i)) s else skipn (Z.to_nat i) s.

Definition slice_to (i : Z) (s : str) : str :=
  if i <? 0 then firstn (Z.to_nat (len s + i)) s else firstn (Z.to_nat i) s.

(** [s.split(sep, 1)[0]] for a one-character [sep]: the text before the
    first occurrence of [sep], the whole string when there is none. *)
Fixpoint split1_head (sep : ascii) (s : str) : str :=
  match s with
  | [] => []
  | c :: s' => if Ascii.eqb c sep then [] else c :: split1_head sep s'
  end.

(** [s.split(sep)] for a one-character [sep]. *)
Fixpoint split (sep : ascii) (s : str) : list str :=
  match s with
  | [] => [[]]
  | c :: s' =>
      if Ascii.eqb c sep then [] :: split sep s'
      else match split sep s' with
           | [] => [[c]]
           | w :: ws => (c :: w) :: ws
           end
  end.

Fixpoint drop_while (f : ascii -> bool) (s : str) : str :=
  match s with
  | [] => []
  | c :: s' => if f c then drop_while f s' else s
  end.

(** [s.lstrip], [s.rstrip] for a set of characters given as a predicate. *)
Definition lstrip (f : ascii -> bool) (s : str) : str := drop_while f s.
Definition rstrip (f : ascii -> bool) (s : str) : str :=
  rev (drop_while f (rev s)).

(** Lexicographic comparison of strings by code point, [a <= b]. *)
Fixpoint str_le (a b : str) : bool :=
  match a, b with
  | [], _ => true
  | _ :: _, [] => false
  | c :: a', d :: b' =>
      if (code c <? code d)%N then true
      else if (code d <? code c)%N then false
      else str_le a' b'
  end.

(** [sorted(l)] on strings: insertion into an ascending list. *)
Fixpoint insert_sorted (x : str) (l : list str) : list str :=
  match l with
  | [] => [x]
  | y :: l' => if str_le x y then x :: l else y :: insert_sorted x l'
  end.

Definition sorted (l : list str) : list str :=
  fold_left (fun acc x => insert_sorted x acc) l [].

(** [l[-1]] of a non-empty list ([None] stands for the empty list, which the
    source tests for before indexing). *)
Definition last_item (l : list str) : option str :=
  match rev l with
  | [] => None
  | x :: _ => Some x
  end.

(** ** [int(s)]

    The text is stripped of surrounding whitespace, then read as an optional
    sign followed by decimal digits, where single underscores may separate
    digits.  Whitespace is tab, LF, VT, FF, CR, space and, outside ASCII,
    U+85 and U+A0.  Of the first 256 code points only 0-9 are decimal digits.
    [None] stands for [ValueError].  (CPython also refuses texts of more than
    4300 digits; a directory entry name is far shorter.) *)
Definition is_int_space (c : ascii) : bool :=
  let n := code c in
  in_range 9 13 n || (n =? 32)%N || (n =? 133)%N || (n =? 160)%N.

Definition is_digit (c : ascii) : bool := in_range 48 57 (code c).

Definition digit_value (c : ascii) : Z := Z.of_N (code c) - 48.

(** [digits_from acc s]: [s] continues a digit run whose value so far is
    [acc]; an underscore must be followed by a digit. *)
Fixpoint digits_from (acc : Z) (s : str) : option Z :=
  match s with
  | [] => Some acc
  | c :: s' =>
      if is_digit c then digits_from (10 * acc + digit_value c) s'
      else if Ascii.eqb c "_" then
        match s' with
        | d :: s'' =>
            if is_digit d then digits_from (10 * acc + digit_value d) s''
            else None
        | [] => None
        end
      else None
  end.

Definition unsigned_int (s : str) : option Z :=
  match s with
  | c :: s' => if is_digit c then digits_from (digit_value c) s' else None
  | [] => None
  end.

Definition int (s : str) : option Z :=
  match rstrip is_int_space (lstrip is_int_space s) with
  | c :: s' =>
      if Ascii.eqb c "+" then unsigned_int s'
      else if Ascii.eqb c "-" then option_map Z.opp (unsigned_int s')
      else unsigned_int (c :: s')
  | [] => None
  end.

(** ** [format(n, "02")]: decimal, zero-padded to a width of two. *)
Definition digit_char (d : Z) : ascii := ascii_of_N (Z.to_N (48 + d)).

(** The decimal digits of a non-negative [n], most significant first;
    [fuel] bounds the number of digits. *)
Fixpoint decimal_aux (fuel : nat) (n : Z) (acc : str) : str :=
  match fuel with
  | O => acc
  | S fuel' =>
      let acc' := digit_char (n mod 10) :: acc in
      if n <? 10 then acc' else decimal_aux fuel' (n / 10) acc'
  end.

Definition decimal (n : Z) : str := decimal_aux (S (Z.to_nat n)) n [].

(** Sign-aware zero padding: the sign counts towards the width. *)
Definition format_02 (n : Z) : str :=
  if n <? 0 then
    let d := decimal (- n) in
    lit "-" ++ repeat "0"%char (1 - length d)%nat ++ d
  else
    let d := decimal n in
    repeat "0"%char (2 - length d)%nat ++ d.

End Py.

Import Py.

(* ===================================================================== *)
(** * Exceptions, outcomes and the effect monad                           *)
(* ===================================================================== *)

(** The subclasses of [OSError] a directory operation raises. *)
Inductive os_error : Type :=
  | FileExistsError
  | FileNotFoundError
  | NotADirectoryError.

Inductive exn : Type :=
  | RuntimeError (msg : str)
  | ValueError (literal : str)
  | OSError (e : os_error).

Inductive outcome (A : Type) : Type :=
  | Returned (a : A)
  | Raised (e : exn).
Arguments Returned {A} a.
Arguments Raised {A} e.

(** A computation over a filesystem of type [FS]: it ends by returning or
    by raising, and leaves a filesystem behind in both cases. *)
Definition M (FS A : Type) : Type := FS -> outcome A * FS.

Definition ret {FS A} (a : A) : M FS A := fun fs => (Returned a, fs).
Definition raise {FS A} (e : exn) : M FS A := fun fs => (Raised e, fs).
Definition bind {FS A B} (m : M FS A) (k : A -> M FS B) : M FS B :=
  fun fs =>
    match m fs with
    | (Returned a, fs') => k a fs'
    | (Raised e, fs') => (Raised e, fs')
    end.

Notation "'let*' x := m 'in' k" := (bind m (fun x => k))
  (at level 10, x name, m at level 100, k at level 200, only parsing).
Notation "'run' m 'in' k" := (bind m (fun _ => k))
  (at level 10, m at level 100, k at level 200, only parsing).

(* ===================================================================== *)
(** * The clock                                                           *)
(* ===================================================================== *)

Module Datetime.

(** The part of [datetime.datetime.now()] the allocator formats. *)
Record datetime : Type := { year : Z; month : Z; day : Z }.

(** [format(n, "0w")] for a non-negative [n]. *)
Definition zero_padded (width : nat) (n : Z) : str :=
  let d := decimal n in repeat "0"%char (width - length d)%nat ++ d.

(** [strftime("%Y-%m")] and [strftime("%Y-%m-%d")]: a four-digit year and
    two-digit month and day (the C library pads the years the clock can
    return, which have four digits). *)
Definition strftime_Y_m (t : datetime) : str :=
  zero_padded 4 (year t) ++ lit "-" ++ zero_padded 2 (month t).

Definition strftime_Y_m_d (t : datetime) : str :=
  strftime_Y_m t ++ lit "-" ++ zero_padded 2 (day t).

End Datetime.

(* ===================================================================== *)
(** * The operating-system interface of the allocator                     *)
(* ===================================================================== *)

(** What [create_job_history_bundle_dir] calls in [os], [os.path] and
    [glob], over a filesystem of type [FS].  [os.path] is [posixpath] or
    [ntpath] depending on the platform; the allocator is written against
    this interface and [Posix.os] below implements it. *)
Record os_module (FS : Type) : Type := {
  os_path_expanduser : str -> str;
  os_path_join : str -> str -> str;
  os_path_abspath : str -> str;
  os_path_basename : str -> str;
  os_path_isdir : FS -> str -> bool;
  os_makedirs : FS -> str -> option os_error * FS;
  glob_glob : FS -> str -> list str;
}.
Arguments os_path_expanduser {FS} _ _.
Arguments os_path_join {FS} _ _ _.
Arguments os_path_abspath {FS} _ _.
Arguments os_path_basename {FS} _ _.
Arguments os_path_isdir {FS} _ _ _.
Arguments os_makedirs {FS} _ _ _.
Arguments glob_glob {FS} _ _ _.

(** What a call reads from its surroundings: the value of the setting
    [settings.job_history_dir] ([get_setting] lives in the [config] package),
    the clock and [sys.platform]. *)
Record context : Type := {
  job_history_dir_setting : str;
  now : Datetime.datetime;
  sys_platform : str;
}.

(* ===================================================================== *)
(** * The allocator                                                        *)
(* ===================================================================== *)

(** ["".join(char for char in name if char.isalnum() or char in " -_")] *)
Definition sanitize (name : str) : str :=
  join_empty
    (flat_map (fun char => if isalnum char || char_in char (lit " -_")
                           then [[char]] else [])
              name).

Definition too_long_message : str :=
  lit "Job history directory is too long. Please update your 'settings.job_history_dir' to a shorter path.".

Definition short_path_platforms : list str := [lit "win32"; lit "cygwin"].

Definition str_eqb (a b : str) : bool := bool_decide (a = b).

Section Allocator.

Context {FS : Type}.
Variable os : os_module FS.
Variable ctx : context.

(** Lines 30-31. *)
Definition job_history_dir : str :=
  os_path_expanduser os (job_history_dir_setting ctx).

(** Lines 38-42. *)
Definition month_tag : str := Datetime.strftime_Y_m (now ctx).
Definition date_tag : str := Datetime.strftime_Y_m_d (now ctx).
Definition month_dir : str := os_path_join os job_history_dir month_tag.

(** Lines 43-44: the month bucket is made when it is not a directory. *)
Definition ensure_month_dir : M FS unit :=
  fun fs =>
    if os_path_isdir os fs month_dir then (Returned tt, fs)
    else match os_makedirs os fs month_dir with
         | (None, fs') => (Returned tt, fs')
         | (Some e, fs') => (Raised (OSError e), fs')
         end.

(** Line 48. *)
Definition existing_dirs (fs : FS) : list str :=
  sorted (glob_glob os fs (os_path_join os month_dir (date_tag ++ lit "-*"))).

(** Line 51, the text handed to [int]. *)
Definition sequence_field (latest_dir : str) : str :=
  split1_head "-" (slice_from (len date_tag + 1) (os_path_basename os latest_dir)).

(** Lines 47-51. *)
Definition next_number : M FS Z :=
  fun fs =>
    match last_item (existing_dirs fs) with
    | None => (Returned 1, fs)
    | Some latest_dir =>
        match int (sequence_field latest_dir) with
        | Some n => (Returned (n + 1), fs)
        | None => (Raised (ValueError (sequence_field latest_dir)), fs)
        end
    end.

(** Line 53. *)
Definition job_dir_prefix (number : Z) (submitter_name_cleaned : str) : str :=
  date_tag ++ lit "-" ++ format_02 number ++ lit "-"
  ++ submitter_name_cleaned ++ lit "-".

(** Lines 55-67. *)
Definition max_job_name_prefix (prefix : str) : M FS Z :=
  if existsb (str_eqb (sys_platform ctx)) short_path_platforms then
    let m := Z.min (207 - len (os_path_abspath os (os_path_join os month_dir prefix))) 128 in
    if m <? 1 then raise (RuntimeError too_long_message) else ret m
  else ret 128.

(** Lines 73-75. *)
Definition make_bundle_dir (result : str) : M FS str :=
  fun fs =>
    match os_makedirs os fs result with
    | (None, fs') => (Returned result, fs')
    | (Some e, fs') => (Raised (OSError e), fs')
    end.

Definition create_job_history_bundle_dir (submitter_name job_name : str)
  : M FS str :=
  let submitter_name_cleaned := sanitize submitter_name in
  run ensure_month_dir in
  let* number := next_number in
  let prefix := job_dir_prefix number submitter_name_cleaned in
  let* limit := max_job_name_prefix prefix in
  let job_name_cleaned := slice_to limit (sanitize job_name) in
  let result := os_path_join os month_dir (prefix ++ job_name_cleaned) in
  make_bundle_dir result.

End Allocator.

(** Calls one after the other, each on the filesystem the previous one left;
    the outcomes in call order. *)
Fixpoint allocate_all {FS : Type} (os : os_module FS) (ctx : context)
    (requests : list (str * str)) (fs : FS) : list (outcome str) * FS :=
  match requests with
  | [] => ([], fs)
  | (submitter_name, job_name) :: rest =>
      let '(o, fs1) :=
        create_job_history_bundle_dir os ctx submitter_name job_name fs in
      let '(later, fs2) := allocate_all os ctx rest fs1 in
      (o :: later, fs2)
  end.

(* ===================================================================== *)
(** * The POSIX implementation of the interface                           *)
(* ===================================================================== *)

(** [posixpath], [os.makedirs] and [glob.glob] over a filesystem of
    directories and files.  [os.path] is [posixpath] on every platform but
    native Windows, so also under Cygwin.

    A node of the filesystem is named by its components below the root.  A
    path text names the node [resolve] computes: the components of its
    absolute, normalised form (there are no symbolic links, and [..] is read
    as [os.path.normpath] reads it).  [os.makedirs] is modelled on nodes. *)
Module Posix.

Definition node := list str.

(** The directories and the other entries (files), latest first. *)
Record filesystem : Type := {
  dirs : list node;
  files : list node;
}.

(** The process environment: the working directory, the home directories
    [expanduser] looks up (its argument is the user name, empty for the
    current user), and the set a bracket expression of a glob pattern
    denotes (as [fnmatch.translate] and [re] read it). *)
Record env : Type := {
  getcwd : str;
  home_of : str -> option str;
  bracket_matches : str -> ascii -> bool;
}.

Definition nonempty (s : str) : bool :=
  match s with [] => false | _ :: _ => true end.

(** ** posixpath *)

Definition slash : ascii := "/"%char.

Definition isabs (p : str) : bool := startswith [slash] p.

(** [os.path.join(a, b)]. *)
Definition join (a b : str) : str :=
  if startswith [slash] b then b
  else if negb (nonempty a) || endswith [slash] a then a ++ b
  else a ++ [slash] ++ b.

(** [(p[:i], p[i:])] for [i = p.rfind("/") + 1]. *)
Fixpoint cut_after_last_slash (p : str) : str * str :=
  match p with
  | [] => ([], [])
  | c :: p' =>
      let '(h, t) := cut_after_last_slash p' in
      if nonempty h then (c :: h, t)
      else if Ascii.eqb c slash then ([c], t)
      else ([], c :: t)
  end.

(** [os.path.basename(p)]. *)
Definition basename (p : str) : str := snd (cut_after_last_slash p).

(** [os.path.split(p)]: the head loses its trailing slashes unless it
    consists of slashes only. *)
Definition split (p : str) : str * str :=
  let '(head, tail) := cut_after_last_slash p in
  let head' :=
    if nonempty head && negb (forallb (Ascii.eqb slash) head)
    then rstrip (Ascii.eqb slash) head else head in
  (head', tail).

(** One step of the component loop of [os.path.normpath]; [stack] is
    [new_comps], last component first, and [rooted] says that the path has
    initial slashes. *)
Definition normpath_step (rooted : bool) (stack : list str) (comp : str)
  : list str :=
  if str_eqb comp [] || str_eqb comp (lit ".") then stack
  else
    match stack with
    | [] => if negb (str_eqb comp (lit "..")) || negb rooted then [comp] else []
    | top :: below =>
        if negb (str_eqb comp (lit "..")) || str_eqb top (lit "..")
        then comp :: stack else below
    end.

(** POSIX keeps exactly two initial slashes and reads three or more as one. *)
Definition initial_slashes (path : str) : nat :=
  if startswith [slash] path then
    if startswith [slash; slash] path && negb (startswith [slash; slash; slash] path)
    then 2%nat else 1%nat
  else 0%nat.

Definition norm_comps (path : str) : list str :=
  rev (fold_left (normpath_step (negb (Nat.eqb (initial_slashes path) 0)))
                 (Py.split slash path) []).

(** [os.path.normpath(path)]. *)
Definition normpath (path : str) : str :=
  if negb (nonempty path) then lit "."
  else
    let path' := repeat slash (initial_slashes path)
                 ++ join_with [slash] (norm_comps path) in
    if nonempty path' then path' else lit ".".



Section WithEnv.

Variable e : env.

(** [os.path.abspath(path)]: the path, joined to the working directory
    when it is relative, then normalised. *)
Definition absolute (path : str) : str :=
  if isabs path then path else join (getcwd e) path.

Definition abspath (path : str) : str := normpath (absolute path).

(** [os.path.expanduser(path)]. *)
Definition expanduser (path : str) : str :=
  if negb (startswith (lit "~") path) then path
  else
    let rest := tl path in
    let name := split1_head slash rest in
    let tail := skipn (length name) rest in
    match home_of e name with
    | None => path
    | Some userhome =>
        let r := rstrip (Ascii.eqb slash) userhome ++ tail in
        if nonempty r then r else [slash]
    end.

(** The node a path text names: the components of its absolute, normalised
    form. *)
Definition resolve (path : str) : node := norm_comps (absolute path).

(** ** Nodes *)

(** The root directory always exists. *)
Definition is_dir_node (fs : filesystem) (n : node) : bool :=
  bool_decide (n = []) || bool_decide (n ∈ dirs fs).

Definition exists_node (fs : filesystem) (n : node) : bool :=
  is_dir_node fs n || bool_decide (n ∈ files fs).

Definition parent (n : node) : node := removelast n.

(** [os.mkdir] at a node. *)
Definition mkdir_node (fs : filesystem) (n : node)
  : option os_error * filesystem :=
  if exists_node fs n then (Some FileExistsError, fs)
  else if is_dir_node fs (parent n) then
    (None, {| dirs := n :: dirs fs; files := files fs |})
  else if exists_node fs (parent n) then (Some NotADirectoryError, fs)
  else (Some FileNotFoundError, fs).

(** [os.makedirs(name)] with [exist_ok=False], at a node given last
    component first: a missing parent is made first, a [FileExistsError]
    of that inner call is passed over, then the node itself is made. *)
Fixpoint makedirs_node (fs : filesystem) (rn : list str)
  : option os_error * filesystem :=
  match rn with
  | [] => mkdir_node fs []
  | _ :: rhead =>
      if exists_node fs (rev rhead) then mkdir_node fs (rev rn)
      else
        match makedirs_node fs rhead with
        | (None, fs') | (Some FileExistsError, fs') => mkdir_node fs' (rev rn)
        | (Some err, fs') => (Some err, fs')
        end
  end.

(** The names of the entries of a directory node. *)
Definition child_name (d : node) (n : node) : option str :=
  match rev n with
  | name :: rpar => if bool_decide (rev rpar = d) then Some name else None
  | [] => None
  end.

Definition children (fs : filesystem) (d : node) (dironly : bool) : list str :=
  omap (child_name d) (if dironly then dirs fs else dirs fs ++ files fs).

(** ** Path-level operations *)

Definition isdir (fs : filesystem) (path : str) : bool :=
  nonempty path && is_dir_node fs (resolve path).

Definition lexists (fs : filesystem) (path : str) : bool :=
  nonempty path && exists_node fs (resolve path).

Definition makedirs (fs : filesystem) (name : str)
  : option os_error * filesystem :=
  if nonempty name then makedirs_node fs (rev (resolve name))
  else (Some FileNotFoundError, fs).

(** [glob._listdir]: the entry names of [dirname] (of the working directory
    for an empty [dirname]); nothing when it cannot be listed. *)
Definition listdir (fs : filesystem) (dirname : str) (dironly : bool)
  : list str :=
  let d := if nonempty dirname then dirname else lit "." in
  if isdir fs d then children fs (resolve d) dironly else [].

(** ** fnmatch *)

Inductive token : Type :=
  | Lit (c : ascii)
  | AnyChar
  | Star
  | Bracket (stuff : str).

(** The text after an opening bracket: the bracket expression up to its
    closing bracket and what follows, if it is closed.  A [!] and then a
    closing bracket directly after the opening one belong to the
    expression. *)
Definition bracket_body (rest : str) : option (str * str) :=
  let '(bang, r1) :=
    match rest with
    | c :: r => if Ascii.eqb c "!" then ([c], r) else ([], rest)
    | [] => ([], [])
    end in
  let '(first, r2) :=
    match r1 with
    | c :: r => if Ascii.eqb c "]" then ([c], r) else ([], r1)
    | [] => ([], [])
    end in
  let body := split1_head "]" r2 in
  match skipn (length body) r2 with
  | _ :: r3 => Some (bang ++ first ++ body, r3)
  | [] => None
  end.

Fixpoint tokens (fuel : nat) (pat : str) : list token :=
  match fuel, pat with
  | S fuel', c :: rest =>
      if Ascii.eqb c "*" then Star :: tokens fuel' rest
      else if Ascii.eqb c "?" then AnyChar :: tokens fuel' rest
      else if Ascii.eqb c "[" then
        match bracket_body rest with
        | Some (stuff, rest') => Bracket stuff :: tokens fuel' rest'
        | None => Lit c :: tokens fuel' rest
        end
      else Lit c :: tokens fuel' rest
  | _, _ => []
  end.

Fixpoint match_tokens (ts : list token) (s : str) : bool :=
  match ts with
  | [] => negb (nonempty s)
  | Lit c :: ts' =>
      match s with
      | d :: s' => Ascii.eqb c d && match_tokens ts' s'
      | [] => false
      end
  | AnyChar :: ts' =>
      match s with
      | _ :: s' => match_tokens ts' s'
      | [] => false
      end
  | Bracket stuff :: ts' =>
      match s with
      | d :: s' => bracket_matches e stuff d && match_tokens ts' s'
      | [] => false
      end
  | Star :: ts' =>
      (fix star (s : str) : bool :=
         match_tokens ts' s
         || match s with
            | _ :: s' => star s'
            | [] => false
            end) s
  end.

(** [fnmatch.fnmatchcase(name, pat)]. *)
Definition fnmatch (pat name : str) : bool :=
  match_tokens (tokens (length pat) pat) name.

(** ** glob *)

Definition has_magic (s : str) : bool :=
  existsb (fun c => char_in c (lit "*?[")) s.

Definition is_hidden (name : str) : bool := startswith (lit ".") name.

Definition glob0 (fs : filesystem) (dirname basename : str) : list str :=
  if nonempty basename then
    if lexists fs (join dirname basename) then [basename] else []
  else if isdir fs dirname then [basename] else [].

Definition glob1 (fs : filesystem) (dirname pattern : str) (dironly : bool)
  : list str :=
  let names := listdir fs dirname dironly in
  let names :=
    if is_hidden pattern then names
    else List.filter (fun x => negb (is_hidden x)) names in
  List.filter (fun x => fnmatch pattern x) names.

(** [glob._iglob], not recursive; [fuel] bounds the depth of the pattern. *)
Fixpoint iglob (fuel : nat) (fs : filesystem) (pathname : str) (dironly : bool)
  : list str :=
  match fuel with
  | O => []
  | S fuel' =>
      let '(dirname, basename) := split pathname in
      if negb (has_magic pathname) then
        if nonempty basename then
          if lexists fs pathname then [pathname] else []
        else if isdir fs dirname then [pathname] else []
      else if negb (nonempty dirname) then glob1 fs [] basename dironly
      else
        let dirs :=
          if negb (str_eqb dirname pathname) && has_magic dirname
          then iglob fuel' fs dirname true
          else [dirname] in
        flat_map
          (fun d =>
             map (join d)
                 (if has_magic basename then glob1 fs d basename dironly
                  else glob0 fs d basename))
          dirs
  end.

(** [glob.glob(pathname)]. *)
Definition glob (fs : filesystem) (pathname : str) : list str :=
  iglob (S (length pathname)) fs pathname false.

(** The interface, implemented. *)
Definition os : os_module filesystem := {|
  os_path_expanduser := expanduser;
  os_path_join := join;
  os_path_abspath := abspath;
  os_path_basename := basename;
  os_path_isdir := isdir;
  os_makedirs := makedirs;
  glob_glob := glob;
|}.

End WithEnv.

End Posix.

(* ===================================================================== *)
(** * Sanitization                                                         *)
(* ===================================================================== *)

(** The characters the specification lets through: alphanumeric, space,
    hyphen, underscore. *)
Definition allowed_char (c : ascii) : bool :=
  isalnum c || Ascii.eqb c " " || Ascii.eqb c "-" || Ascii.eqb c "_".

Lemma char_in_allowed c :
  isalnum c || char_in c (lit " -_") = allowed_char c.
Proof.
  unfold allowed_char, char_in, lit. simpl.
  destruct (isalnum c), (Ascii.eqb c " "), (Ascii.eqb c "-"), (Ascii.eqb c "_");
    reflexivity.
Qed.

Lemma sanitize_cons c s :
  sanitize (c :: s) = if allowed_char c then c :: sanitize s else sanitize s.
Proof.
  unfold sanitize, join_empty. simpl. rewrite char_in_allowed.
  destruct (allowed_char c); simpl; reflexivity.
Qed.

Lemma sanitize_filter s : sanitize s = List.filter allowed_char s.
Proof.
  induction s as [|c s IH]; [reflexivity|].
  rewrite sanitize_cons. simpl. rewrite IH. reflexivity.
Qed.

Lemma sanitize_allowed s : Forall (fun c => allowed_char c = true) (sanitize s).
Proof.
  induction s as [|c s IH]; [constructor|].
  rewrite sanitize_cons. destruct (allowed_char c) eqn:Hc; auto.
Qed.

Lemma sanitize_fixed s :
  Forall (fun c => allowed_char c = true) s -> sanitize s = s.
Proof.
  induction 1 as [|c s Hc _ IH]; [reflexivity|].
  rewrite sanitize_cons, Hc, IH. reflexivity.
Qed.

Lemma sanitize_excludes c s : allowed_char c = false -> ~ In c (sanitize s).
Proof.
  intros Hc Hin. pose proof (sanitize_allowed s) as Hall.
  rewrite Forall_forall in Hall. apply list_elem_of_In in Hin.
  specialize (Hall c Hin). congruence.
Qed.

(* ===================================================================== *)
(** * The allocator over any implementation of the interface              *)
(* ===================================================================== *)

Section AllocatorFacts.

Context {FS : Type}.
Variable os : os_module FS.
Variable ctx : context.

Local Abbreviation create := (create_job_history_bundle_dir os ctx).
Local Abbreviation join := (os_path_join os).
Local Abbreviation mdir := (month_dir os ctx).

(** The path the allocator assembles for sequence number [n] and a job-name
    limit [limit] (lines 53 and 69-73). *)
Definition bundle_path (submitter_name job_name : str) (n limit : Z) : str :=
  join mdir (job_dir_prefix ctx n (sanitize submitter_name)
             ++ slice_to limit (sanitize job_name)).



Lemma next_number_state fs o fs' :
  next_number os ctx fs = (o, fs') -> fs' = fs.
Proof.
  unfold next_number. intros H.
  destruct (last_item (existing_dirs os ctx fs)) as [latest|].
  - destruct (int (sequence_field os ctx latest)); congruence.
  - congruence.
Qed.

Lemma max_job_name_prefix_state prefix fs o fs' :
  max_job_name_prefix os ctx prefix fs = (o, fs') -> fs' = fs.
Proof.
  unfold max_job_name_prefix, raise, ret. intros H.
  destruct (existsb _ _); [destruct (_ <? 1)|]; congruence.
Qed.



(** The call, stage by stage. *)
Lemma create_stages sub job fs :
  create sub job fs =
    match ensure_month_dir os ctx fs with
    | (Raised e, fs1) => (Raised e, fs1)
    | (Returned _, fs1) =>
        match next_number os ctx fs1 with
        | (Raised e, fs2) => (Raised e, fs2)
        | (Returned n, fs2) =>
            match max_job_name_prefix os ctx
                    (job_dir_prefix ctx n (sanitize sub)) fs2 with
            | (Raised e, fs3) => (Raised e, fs3)
            | (Returned limit, fs3) =>
                make_bundle_dir os (bundle_path sub job n limit) fs3
            end
        end
    end.
Proof.
  unfold create_job_history_bundle_dir, bind.
  destruct (ensure_month_dir os ctx fs) as [[[]|e] fs1]; [|reflexivity].
  destruct (next_number os ctx fs1) as [[n|e] fs2]; reflexivity.
Qed.

Lemma ensure_month_dir_raises fs e fs' :
  ensure_month_dir os ctx fs = (Raised e, fs') -> exists err, e = OSError err.
Proof.
  unfold ensure_month_dir. destruct (os_path_isdir os fs mdir); [congruence|].
  destruct (os_makedirs os fs mdir) as [[err|] fs1]; intros H; inversion H; eauto.
Qed.


Lemma make_bundle_dir_raises p fs e fs' :
  make_bundle_dir os p fs = (Raised e, fs') -> exists err, e = OSError err.
Proof.
  unfold make_bundle_dir.
  destruct (os_makedirs os fs p) as [[err|] fs1]; intros H; inversion H; eauto.
Qed.

Lemma make_bundle_dir_returns p fs q fs' :
  make_bundle_dir os p fs = (Returned q, fs') ->
  q = p /\ os_makedirs os fs p = (None, fs').
Proof.
  unfold make_bundle_dir.
  destruct (os_makedirs os fs p) as [[err|] fs1]; intros H; inversion H; auto.
Qed.

(** A call that returns went through every stage. *)
Lemma create_returns sub job fs p fs' :
  create sub job fs = (Returned p, fs') ->
  exists fs1 n limit,
    ensure_month_dir os ctx fs = (Returned tt, fs1)
    /\ next_number os ctx fs1 = (Returned n, fs1)
    /\ max_job_name_prefix os ctx (job_dir_prefix ctx n (sanitize sub)) fs1
       = (Returned limit, fs1)
    /\ p = bundle_path sub job n limit
    /\ os_makedirs os fs1 p = (None, fs').
Proof.
  rewrite create_stages.
  destruct (ensure_month_dir os ctx fs) as [[[]|e] fs1] eqn:He; [|congruence].
  destruct (next_number os ctx fs1) as [[n|e] fs2] eqn:Hn; [|congruence].
  pose proof (next_number_state _ _ _ Hn) as ->.
  destruct (max_job_name_prefix os ctx _ fs1) as [[limit|e] fs3] eqn:Hm;
    [|congruence].
  pose proof (max_job_name_prefix_state _ _ _ _ Hm) as ->.
  intros H. apply make_bundle_dir_returns in H as [-> H].
  exists fs1, n, limit. auto.
Qed.


(** When the first three stages go through, the call is the creation of the
    assembled path. *)
Lemma create_from_stages sub job fs fs1 n limit :
  ensure_month_dir os ctx fs = (Returned tt, fs1) ->
  next_number os ctx fs1 = (Returned n, fs1) ->
  max_job_name_prefix os ctx (job_dir_prefix ctx n (sanitize sub)) fs1
    = (Returned limit, fs1) ->
  create sub job fs = make_bundle_dir os (bundle_path sub job n limit) fs1.
Proof.
  intros He Hn Hm. rewrite create_stages, He, Hn, Hm. reflexivity.
Qed.

End AllocatorFacts.

(* ===================================================================== *)
(** * Facts about Python strings                                          *)
(* ===================================================================== *)

Section StringFacts.

Implicit Types (s t p : str) (c d : ascii).

Lemma nonempty_true s : Posix.nonempty s = true <-> s <> [].
Proof. destruct s; simpl; split; congruence. Qed.

Lemma startswith_app p s : startswith p (p ++ s) = true.
Proof.
  induction p as [|c p IH]; [reflexivity|]. simpl.
  rewrite Ascii.eqb_refl, IH. reflexivity.
Qed.


(** ** The order of [sorted] *)





















End StringFacts.

(* ===================================================================== *)
(** * Digits, [format] and [int]                                           *)
(* ===================================================================== *)

Section NumberFacts.

Ltac by_code :=
  repeat match goal with
         | |- context [N.leb ?a ?b] => destruct (N.leb_spec a b)
         | |- context [N.eqb ?a ?b] => destruct (N.eqb_spec a b)
         | |- context [N.ltb ?a ?b] => destruct (N.ltb_spec a b)
         | H : context [N.leb ?a ?b] |- _ => destruct (N.leb_spec a b)
         | H : context [N.eqb ?a ?b] |- _ => destruct (N.eqb_spec a b)
         | H : context [N.ltb ?a ?b] |- _ => destruct (N.ltb_spec a b)
         end;
  simpl in *; try congruence; try lia.

Lemma code_digit_char d : 0 <= d <= 9 -> code (digit_char d) = Z.to_N (48 + d).
Proof.
  intros H. unfold code, digit_char. apply N_ascii_embedding. lia.
Qed.

Lemma is_digit_digit_char d : 0 <= d <= 9 -> is_digit (digit_char d) = true.
Proof.
  intros H. unfold is_digit, in_range. rewrite code_digit_char by exact H.
  by_code.
Qed.

Lemma is_digit_not_space c : is_digit c = true -> is_int_space c = false.
Proof. unfold is_digit, is_int_space, in_range. intros H. by_code. Qed.

Lemma is_digit_not_char c (k : ascii) :
  is_digit c = true -> is_digit k = false -> Ascii.eqb c k = false.
Proof.
  intros Hc Hk. destruct (Ascii.eqb_spec c k) as [->|]; [congruence|reflexivity].
Qed.

Lemma is_digit_allowed c : is_digit c = true -> allowed_char c = true.
Proof.
  unfold allowed_char, isalnum, is_digit. intros ->. reflexivity.
Qed.

Definition all_digits (s : str) : Prop := Forall (fun c => is_digit c = true) s.

Lemma decimal_aux_digits fuel n acc :
  all_digits acc -> all_digits (decimal_aux fuel n acc).
Proof.
  revert n acc. induction fuel as [|fuel IH]; intros n acc Hacc; simpl;
    [assumption|].
  assert (all_digits (digit_char (n mod 10) :: acc)) as Hacc'.
  { constructor; [|assumption]. apply is_digit_digit_char.
    pose proof (Z.mod_pos_bound n 10). lia. }
  destruct (n <? 10); [assumption|]. apply IH, Hacc'.
Qed.

Lemma decimal_digits n : all_digits (decimal n).
Proof. apply decimal_aux_digits. constructor. Qed.

Lemma zero_padded_digits w n : all_digits (Datetime.zero_padded w n).
Proof.
  unfold Datetime.zero_padded, all_digits. rewrite Forall_app. split.
  - apply Forall_forall. intros c Hc. apply list_elem_of_In, repeat_spec in Hc.
    subst. reflexivity.
  - apply decimal_digits.
Qed.




Lemma drop_while_head f c s : f c = false -> drop_while f (c :: s) = c :: s.
Proof. intros H. simpl. rewrite H. reflexivity. Qed.

Lemma strip_digits s :
  s <> [] -> all_digits s -> rstrip is_int_space (lstrip is_int_space s) = s.
Proof.
  intros Hne Hs. unfold lstrip, rstrip.
  destruct s as [|c s]; [congruence|]. inversion Hs as [|? ? Hc Hs']; subst.
  rewrite drop_while_head by (apply is_digit_not_space, Hc).
  assert (all_digits (rev (c :: s))) as Hrev.
  { unfold all_digits in *. apply Forall_forall. intros x Hx.
    rewrite Forall_forall in Hs. apply Hs.
    apply list_elem_of_In. apply list_elem_of_In, in_rev in Hx. exact Hx. }
  destruct (rev (c :: s)) as [|d r] eqn:Hr.
  - apply (f_equal (@rev ascii)) in Hr. rewrite rev_involutive in Hr. discriminate.
  - inversion Hrev; subst.
    rewrite drop_while_head by (apply is_digit_not_space; assumption).
    rewrite <- Hr. apply rev_involutive.
Qed.



End NumberFacts.

(* ===================================================================== *)
(** * Facts about POSIX paths                                              *)
(* ===================================================================== *)

Section PathFacts.

Import Posix.

Implicit Types (p q d x y j : str).

Definition slash_free (s : str) : Prop := ~ In slash s.

(** A name that [normpath] keeps as a component. *)
Definition plain_name (x : str) : Prop :=
  x <> [] /\ slash_free x /\ x <> lit "." /\ x <> lit "..".

(** The text [join] puts in front of a relative second argument. *)
Definition dir_prefix (d : str) : str :=
  if negb (nonempty d) || endswith [slash] d then d else d ++ [slash].

Definition dirlike (q : str) : Prop := q = [] \/ exists q', q = q' ++ [slash].

Lemma slash_free_cons c x : slash_free (c :: x) <-> c <> slash /\ slash_free x.
Proof.
  unfold slash_free. simpl. split.
  - intros H. split; [intros ->; apply H; left; reflexivity|].
    intros Hin. apply H. right. exact Hin.
  - intros [Hc Hx] [->|Hin]; [apply Hc; reflexivity|apply Hx, Hin].
Qed.


Lemma slash_free_head x : slash_free x -> startswith [slash] x = false.
Proof.
  destruct x as [|c x]; [reflexivity|]. rewrite slash_free_cons. intros [Hc _].
  simpl. destruct (Ascii.eqb_spec slash c); [congruence|reflexivity].
Qed.

Lemma hyphen_plain x : slash_free x -> In "-"%char x -> plain_name x.
Proof.
  intros Hs Hh. repeat split; [|exact Hs| |]; intros ->; simpl in Hh;
    try (destruct Hh as [Hh|[Hh|Hh]]; try discriminate Hh; try destruct Hh);
    try (destruct Hh as [Hh|Hh]; try discriminate Hh; destruct Hh);
    try destruct Hh.
Qed.

(** ** [str.split] *)

Lemma split_nonempty s : Py.split slash s <> [].
Proof.
  destruct s as [|c s]; simpl; [discriminate|].
  destruct (Ascii.eqb c slash); [discriminate|].
  destruct (Py.split slash s); discriminate.
Qed.

Lemma split_slash_free x : slash_free x -> Py.split slash x = [x].
Proof.
  induction x as [|c x IH]; [reflexivity|]. rewrite slash_free_cons.
  intros [Hc Hx]. simpl. rewrite IH by exact Hx.
  destruct (Ascii.eqb_spec c slash); [congruence|reflexivity].
Qed.

Lemma split_sep a b :
  Py.split slash (a ++ slash :: b) = Py.split slash a ++ Py.split slash b.
Proof.
  induction a as [|c a IH]; simpl.
  - reflexivity.
  - rewrite IH. destruct (Ascii.eqb c slash); [reflexivity|].
    pose proof (split_nonempty a) as Hne.
    destruct (Py.split slash a) as [|w ws]; [congruence|reflexivity].
Qed.

Lemma split_dirlike q :
  dirlike q ->
  exists cs, Py.split slash q = cs ++ [[]]
             /\ forall y, slash_free y -> Py.split slash (q ++ y) = cs ++ [y].
Proof.
  intros [->|[q' ->]].
  - exists []. split; [reflexivity|]. intros y Hy. apply split_slash_free, Hy.
  - exists (Py.split slash q'). split.
    + apply (split_sep q' []).
    + intros y Hy. rewrite <- app_assoc. simpl.
      rewrite split_sep, (split_slash_free y) by exact Hy. reflexivity.
Qed.

(** ** [join] *)

Lemma join_relative d x :
  startswith [slash] x = false -> join d x = dir_prefix d ++ x.
Proof.
  intros H. unfold join, dir_prefix. rewrite H.
  destruct (negb (nonempty d) || endswith [slash] d); [reflexivity|].
  rewrite <- app_assoc. reflexivity.
Qed.

Lemma endswith_slash d :
  endswith [slash] d = true -> exists d', d = d' ++ [slash].
Proof.
  unfold endswith. simpl. intros H.
  destruct (rev d) as [|c r] eqn:Hr; [discriminate|].
  rewrite andb_true_r in H. apply Ascii.eqb_eq in H as <-.
  exists (rev r). apply (f_equal (@rev ascii)) in Hr.
  rewrite rev_involutive in Hr. exact Hr.
Qed.

Lemma dir_prefix_dirlike d : dirlike (dir_prefix d).
Proof.
  unfold dir_prefix. destruct d as [|c d]; [left; reflexivity|]. simpl.
  destruct (endswith [slash] (c :: d)) eqn:He.
  - right. apply endswith_slash, He.
  - right. exists (c :: d). reflexivity.
Qed.

Lemma endswith_app a d :
  d <> [] -> endswith [slash] (a ++ d) = endswith [slash] d.
Proof.
  intros Hd. unfold endswith. rewrite rev_app_distr.
  destruct (rev d) as [|c r] eqn:Hr.
  - apply (f_equal (@rev ascii)) in Hr. rewrite rev_involutive in Hr.
    simpl in Hr. congruence.
  - reflexivity.
Qed.

Lemma dir_prefix_app a d : d <> [] -> dir_prefix (a ++ d) = a ++ dir_prefix d.
Proof.
  intros Hd. unfold dir_prefix. rewrite endswith_app by exact Hd.
  destruct d as [|c d]; [congruence|].
  replace (nonempty (a ++ c :: d)) with true by (destruct a; reflexivity).
  simpl. destruct (endswith [slash] (c :: d)); [reflexivity|].
  rewrite <- app_assoc. reflexivity.
Qed.

Lemma dir_prefix_idem d : dir_prefix (dir_prefix d) = dir_prefix d.
Proof.
  destruct (dir_prefix_dirlike d) as [H|[q' H]]; rewrite H.
  - reflexivity.
  - unfold dir_prefix. unfold endswith at 1. rewrite rev_app_distr. simpl.
    rewrite orb_true_r. reflexivity.
Qed.

(** ** [basename] and [split] *)

Lemma cut_slash_free y : slash_free y -> cut_after_last_slash y = ([], y).
Proof.
  induction y as [|c y IH]; [reflexivity|]. rewrite slash_free_cons.
  intros [Hc Hy]. simpl. rewrite IH by exact Hy. simpl.
  destruct (Ascii.eqb_spec c slash); [congruence|reflexivity].
Qed.

Lemma cut_dir q' y :
  slash_free y ->
  cut_after_last_slash ((q' ++ [slash]) ++ y) = (q' ++ [slash], y).
Proof.
  intros Hy. induction q' as [|c q' IH]; simpl.
  - rewrite cut_slash_free by exact Hy. reflexivity.
  - rewrite IH. destruct q'; reflexivity.
Qed.

Lemma basename_join d y : slash_free y -> basename (join d y) = y.
Proof.
  intros Hy. rewrite join_relative by (apply slash_free_head, Hy).
  unfold basename. destruct (dir_prefix_dirlike d) as [->|[q' ->]].
  - simpl. rewrite cut_slash_free by exact Hy. reflexivity.
  - rewrite cut_dir by exact Hy. reflexivity.
Qed.



End PathFacts.

Section NormFacts.

Import Posix.

Variable e : env.

Implicit Types (p q d x y j : str).

Lemma step_empty rooted st : normpath_step rooted st [] = st.
Proof. reflexivity. Qed.

Lemma str_eqb_false a b : a <> b -> str_eqb a b = false.
Proof. intros H. unfold str_eqb. apply bool_decide_eq_false. exact H. Qed.


Lemma step_plain rooted st x :
  plain_name x -> normpath_step rooted st x = x :: st.
Proof.
  intros (Hne & _ & Hdot & Hdots). unfold normpath_step.
  rewrite !str_eqb_false by assumption. destruct st; reflexivity.
Qed.

Lemma initial_slashes_dir q y :
  y <> [] -> startswith [slash] y = false ->
  initial_slashes (q ++ y) = initial_slashes q.
Proof.
  intros Hne Hy. destruct y as [|c y]; [congruence|].
  unfold initial_slashes. simpl in Hy. rewrite andb_true_r in Hy.
  destruct q as [|a [|b [|c' q]]]; simpl; rewrite ?Hy, ?andb_false_r;
    try reflexivity;
    repeat match goal with
           | |- context [Ascii.eqb slash ?k] => destruct (Ascii.eqb slash k)
           end; reflexivity.
Qed.

Lemma rooted_head p :
  negb (Nat.eqb (initial_slashes p) 0) = startswith [slash] p.
Proof.
  unfold initial_slashes. destruct (startswith [slash] p); [|reflexivity].
  destruct (_ && _); reflexivity.
Qed.

(** Appending a plain name to a directory text appends a component. *)
Lemma norm_comps_dir q y :
  dirlike q -> plain_name y -> norm_comps (q ++ y) = norm_comps q ++ [y].
Proof.
  intros Hq Hy. pose proof Hy as (Hne & Hsf & _).
  unfold norm_comps.
  rewrite initial_slashes_dir by (auto using slash_free_head).
  destruct (split_dirlike q Hq) as (cs & Hcs & Hcsy).
  rewrite Hcs, Hcsy by exact Hsf. rewrite !fold_left_app. simpl.
  rewrite step_empty, step_plain by exact Hy. reflexivity.
Qed.

Lemma norm_comps_dir_prefix p : norm_comps (dir_prefix p) = norm_comps p.
Proof.
  destruct p as [|c p]; [reflexivity|]. unfold dir_prefix.
  destruct (negb (nonempty (c :: p)) || endswith [slash] (c :: p));
    [reflexivity|].
  unfold norm_comps. rewrite !rooted_head.
  change (startswith [slash] ((c :: p) ++ [slash]))
    with (startswith [slash] (c :: p)).
  rewrite (split_sep (c :: p) []), fold_left_app. reflexivity.
Qed.

Lemma absolute_join d y :
  y <> [] -> startswith [slash] y = false ->
  absolute e (join d y) = dir_prefix (absolute e d) ++ y.
Proof.
  intros Hne Hy. rewrite (join_relative d y Hy). unfold absolute, isabs.
  destruct d as [|c d].
  - change (dir_prefix [] ++ y) with y.
    change (startswith [slash] []) with false. cbv iota. rewrite Hy.
    rewrite !join_relative by auto.
    rewrite app_nil_r, dir_prefix_idem. reflexivity.
  - assert (startswith [slash] (dir_prefix (c :: d) ++ y)
            = startswith [slash] (c :: d)) as ->.
    { unfold dir_prefix.
      destruct (negb (nonempty (c :: d)) || endswith [slash] (c :: d));
        reflexivity. }
    destruct (startswith [slash] (c :: d)) eqn:Habs; [reflexivity|].
    rewrite !join_relative.
    + rewrite dir_prefix_app by discriminate. rewrite <- app_assoc. reflexivity.
    + exact Habs.
    + unfold dir_prefix.
      destruct (negb (nonempty (c :: d)) || endswith [slash] (c :: d));
        exact Habs.
Qed.

(** The node of a joined plain name is a child of the node of the
    directory text. *)
Lemma resolve_join d y :
  plain_name y -> resolve e (join d y) = resolve e d ++ [y].
Proof.
  intros Hy. pose proof Hy as (Hne & Hsf & _). unfold resolve.
  rewrite absolute_join by (auto using slash_free_head).
  rewrite norm_comps_dir by (auto using dir_prefix_dirlike).
  rewrite norm_comps_dir_prefix. reflexivity.
Qed.




Lemma isabs_join a b : isabs a = true -> isabs (join a b) = true.
Proof.
  unfold isabs, join. intros Ha.
  destruct (startswith [slash] b) eqn:Hb; [exact Hb|].
  destruct a as [|c a]; [discriminate|].
  destruct (negb (nonempty (c :: a)) || endswith [slash] (c :: a)); exact Ha.
Qed.

End NormFacts.

(* ===================================================================== *)
(** * The names the allocator forms                                        *)
(* ===================================================================== *)

Section NameFacts.

Variable ctx : context.

Definition tag_char (c : ascii) : Prop := is_digit c = true \/ c = "-"%char.

Lemma tag_char_allowed c : tag_char c -> allowed_char c = true.
Proof. intros [H| ->]; [apply is_digit_allowed, H|reflexivity]. Qed.

Lemma digits_tag s : all_digits s -> Forall tag_char s.
Proof.
  unfold all_digits. intros H. eapply Forall_impl; [exact H|].
  intros c Hc. left. exact Hc.
Qed.

Lemma hyphen_tag : Forall tag_char (lit "-").
Proof. constructor; [right; reflexivity|constructor]. Qed.

Lemma month_tag_chars : Forall tag_char (month_tag ctx).
Proof.
  unfold month_tag, Datetime.strftime_Y_m. rewrite !Forall_app.
  split; [|split]; auto using digits_tag, zero_padded_digits, hyphen_tag.
Qed.

Lemma date_tag_chars : Forall tag_char (date_tag ctx).
Proof.
  unfold date_tag, Datetime.strftime_Y_m_d. rewrite !Forall_app.
  split; [|split];
    auto using digits_tag, zero_padded_digits, hyphen_tag, month_tag_chars.
Qed.

Lemma month_tag_hyphen : In "-"%char (month_tag ctx).
Proof.
  unfold month_tag, Datetime.strftime_Y_m. rewrite !in_app_iff.
  right. left. left. reflexivity.
Qed.

Lemma allowed_not_slash c : allowed_char c = true -> c <> Posix.slash.
Proof. intros H ->. discriminate H. Qed.

Lemma allowed_slash_free s :
  Forall (fun c => allowed_char c = true) s -> slash_free s.
Proof.
  intros H Hin. rewrite Forall_forall in H.
  apply (allowed_not_slash Posix.slash); [|reflexivity].
  apply H, list_elem_of_In, Hin.
Qed.

Lemma tag_allowed s :
  Forall tag_char s -> Forall (fun c => allowed_char c = true) s.
Proof. intros H. eapply Forall_impl; [exact H|]. apply tag_char_allowed. Qed.

Lemma month_tag_plain : plain_name (month_tag ctx).
Proof.
  apply hyphen_plain; [|apply month_tag_hyphen].
  apply allowed_slash_free, tag_allowed, month_tag_chars.
Qed.

Lemma format_02_allowed n : Forall (fun c => allowed_char c = true) (format_02 n).
Proof.
  assert (forall k, Forall (fun c => allowed_char c = true) (repeat "0"%char k))
    as Hzeros.
  { intros k. apply Forall_forall. intros c Hc.
    apply list_elem_of_In, repeat_spec in Hc. subst. reflexivity. }
  pose proof (tag_allowed _ hyphen_tag) as Hh.
  unfold format_02. destruct (n <? 0); rewrite !Forall_app.
  - split; [exact Hh|]. split; [apply Hzeros|].
    apply tag_allowed, digits_tag, decimal_digits.
  - split; [apply Hzeros|]. apply tag_allowed, digits_tag, decimal_digits.
Qed.

Lemma job_dir_prefix_allowed n sub :
  Forall (fun c => allowed_char c = true) (job_dir_prefix ctx n (sanitize sub)).
Proof.
  unfold job_dir_prefix. rewrite !Forall_app.
  pose proof (tag_allowed _ hyphen_tag) as Hh.
  repeat (split; [first [apply tag_allowed, date_tag_chars | exact Hh
                        | apply format_02_allowed | apply sanitize_allowed]|]).
  exact Hh.
Qed.

Lemma job_dir_prefix_hyphen n s : In "-"%char (job_dir_prefix ctx n s).
Proof.
  unfold job_dir_prefix. rewrite !in_app_iff. right. left. left. reflexivity.
Qed.

Lemma slice_to_allowed limit s :
  Forall (fun c => allowed_char c = true) s ->
  Forall (fun c => allowed_char c = true) (slice_to limit s).
Proof.
  intros H. unfold slice_to. destruct (limit <? 0); apply Forall_take, H.
Qed.

(** Every directory name the allocator forms is a plain name. *)
Lemma bundle_name_plain n sub limit job :
  plain_name (job_dir_prefix ctx n (sanitize sub)
              ++ slice_to limit (sanitize job)).
Proof.
  apply hyphen_plain.
  - apply allowed_slash_free. rewrite Forall_app. split.
    + apply job_dir_prefix_allowed.
    + apply slice_to_allowed, sanitize_allowed.
  - apply in_app_iff. left. apply job_dir_prefix_hyphen.
Qed.



Lemma slice_to_firstn limit s :
  0 <= limit -> slice_to limit s = firstn (Z.to_nat limit) s.
Proof.
  intros H. unfold slice_to. destruct (Z.ltb_spec limit 0); [lia|reflexivity].
Qed.

End NameFacts.

(* ===================================================================== *)
(** * Facts about the POSIX filesystem                                     *)
(* ===================================================================== *)

Section FsFacts.

Import Posix.

Variable e : env.

Implicit Types (fs : filesystem) (n : node).

(** [fs'] is [fs] with the directories [created] added, latest first. *)
Definition extends (fs fs' : filesystem) (created : list node) : Prop :=
  dirs fs' = created ++ dirs fs /\ files fs' = files fs.

Lemma extends_refl fs : extends fs fs [].
Proof. split; reflexivity. Qed.

Lemma extends_trans fs1 fs2 fs3 c1 c2 :
  extends fs1 fs2 c1 -> extends fs2 fs3 c2 -> extends fs1 fs3 (c2 ++ c1).
Proof.
  intros [Hd1 Hf1] [Hd2 Hf2]. split.
  - rewrite Hd2, Hd1, app_assoc. reflexivity.
  - congruence.
Qed.

Lemma is_dir_node_mono fs fs' created n :
  extends fs fs' created -> is_dir_node fs n = true -> is_dir_node fs' n = true.
Proof.
  intros [Hd _]. unfold is_dir_node. rewrite !orb_true_iff, !bool_decide_eq_true.
  rewrite Hd, elem_of_app. tauto.
Qed.

Lemma exists_node_mono fs fs' created n :
  extends fs fs' created -> exists_node fs n = true -> exists_node fs' n = true.
Proof.
  intros Hext. unfold exists_node. rewrite !orb_true_iff.
  intros [H|H]; [left; eapply is_dir_node_mono; eassumption|].
  right. destruct Hext as [_ Hf]. rewrite Hf. exact H.
Qed.

Lemma exists_node_mono_false fs fs' created n :
  extends fs fs' created -> exists_node fs' n = false -> exists_node fs n = false.
Proof.
  intros Hext H. destruct (exists_node fs n) eqn:Hn; [|reflexivity].
  rewrite (exists_node_mono _ _ _ _ Hext Hn) in H. discriminate.
Qed.

Lemma is_dir_node_exists fs n : is_dir_node fs n = true -> exists_node fs n = true.
Proof. unfold exists_node. intros ->. reflexivity. Qed.

Lemma mkdir_node_inv fs n r fs' :
  mkdir_node fs n = (r, fs') ->
  (r = None /\ extends fs fs' [n] /\ exists_node fs n = false
   /\ is_dir_node fs (parent n) = true)
  \/ (exists err, r = Some err /\ fs' = fs).
Proof.
  unfold mkdir_node. destruct (exists_node fs n) eqn:Hn.
  { intros [= <- <-]. right. eauto. }
  destruct (is_dir_node fs (parent n)) eqn:Hp.
  { intros [= <- <-]. left. repeat split; auto. }
  destruct (exists_node fs (parent n)); intros [= <- <-]; right; eauto.
Qed.

Lemma mkdir_node_ok fs n :
  exists_node fs n = false -> is_dir_node fs (parent n) = true ->
  mkdir_node fs n = (None, {| dirs := n :: dirs fs; files := files fs |}).
Proof. unfold mkdir_node. intros -> ->. reflexivity. Qed.

Definition prefix_of (n m : node) : Prop := exists t, m = n ++ t.

(** What [makedirs] leaves behind: directories on the way to its target,
    none of which existed. *)
Lemma makedirs_node_extends fs rn r fs' :
  makedirs_node fs rn = (r, fs') ->
  exists created,
    extends fs fs' created
    /\ Forall (fun n => prefix_of n (rev rn)) created
    /\ Forall (fun n => exists_node fs n = false) created
    /\ (r = None -> In (rev rn) created).
Proof.
  revert r fs'. induction rn as [|t rhead IH]; intros r fs' H.
  - simpl in H. apply mkdir_node_inv in H
      as [(-> & Hext & Hn & _)|(err & -> & ->)].
    + discriminate Hn.
    + exists []. split; [|split; [|split]]; auto using extends_refl.
      discriminate.
  - assert (forall fs1 c1,
              extends fs fs1 c1 ->
              Forall (fun n => prefix_of n (rev (t :: rhead))) c1 ->
              Forall (fun n => exists_node fs n = false) c1 ->
              mkdir_node fs1 (rev (t :: rhead)) = (r, fs') ->
              exists created,
                extends fs fs' created
                /\ Forall (fun n => prefix_of n (rev (t :: rhead))) created
                /\ Forall (fun n => exists_node fs n = false) created
                /\ (r = None -> In (rev (t :: rhead)) created)) as Hfinal.
    { intros fs1 c1 Hext Hpre Hnew Hmk.
      apply mkdir_node_inv in Hmk as [(-> & Hext' & Hn & _)|(err & -> & ->)].
      - exists ([rev (t :: rhead)] ++ c1). split; [|split; [|split]].
        + eapply extends_trans; eassumption.
        + constructor; [exists []; rewrite app_nil_r; reflexivity|exact Hpre].
        + constructor; [|exact Hnew].
          eapply exists_node_mono_false; eassumption.
        + intros _. left. reflexivity.
      - exists c1. split; [|split; [|split]]; auto. discriminate. }
    simpl in H. destruct (exists_node fs (rev rhead)).
    + apply (Hfinal fs []); auto using extends_refl.
    + destruct (makedirs_node fs rhead) as [r1 fs1] eqn:Hrec.
      destruct (IH _ _ eq_refl) as (c1 & Hext & Hpre & Hnew & _).
      assert (Forall (fun n => prefix_of n (rev (t :: rhead))) c1) as Hpre'.
      { eapply Forall_impl; [exact Hpre|]. intros n [u Hu].
        exists (u ++ [t]). simpl. rewrite Hu, <- app_assoc. reflexivity. }
      destruct r1 as [[| |]|].
      * apply (Hfinal fs1 c1); auto.
      * injection H as <- <-. exists c1.
        split; [|split; [|split]]; auto. discriminate.
      * injection H as <- <-. exists c1.
        split; [|split; [|split]]; auto. discriminate.
      * apply (Hfinal fs1 c1); auto.
Qed.

(** With the parent present, [makedirs] is a single [mkdir]. *)
Lemma makedirs_node_child fs name (d : node) :
  exists_node fs d = true ->
  makedirs_node fs (rev (d ++ [name])) = mkdir_node fs (d ++ [name]).
Proof.
  intros Hd. rewrite rev_app_distr. simpl. rewrite rev_involutive, Hd.
  reflexivity.
Qed.

Lemma parent_snoc (d : node) name : parent (d ++ [name]) = d.
Proof. unfold parent. apply removelast_last. Qed.



End FsFacts.

(* ===================================================================== *)
(** * What the glob of a literal directory returns                         *)
(* ===================================================================== *)

Section GlobFacts.

Import Posix.

Variable e : env.











End GlobFacts.

(* ===================================================================== *)
(** * The allocator on POSIX                                               *)
(* ===================================================================== *)

Section PosixAllocator.

Import Posix.

Variable e : env.
Variable ctx : context.

Local Abbreviation posix := (Posix.os e).
Local Abbreviation root := (job_history_dir (Posix.os e) ctx).
Local Abbreviation mdir := (month_dir (Posix.os e) ctx).

(** The names of the same-day entries of the month bucket. *)
Definition day_entries (fs : filesystem) : list str :=
  List.filter (startswith (date_tag ctx ++ lit "-")) (listdir e fs mdir false).

(** The text between the day prefix and the next hyphen of an entry name. *)
Definition day_field (name : str) : str :=
  split1_head "-" (skipn (length (date_tag ctx) + 1) name).

Lemma month_dir_text : mdir = dir_prefix root ++ month_tag ctx.
Proof.
  unfold month_dir. apply join_relative, slash_free_head.
  apply (month_tag_plain ctx).
Qed.

Lemma tag_last (tag : str) :
  tag <> [] -> Forall tag_char tag ->
  exists t0 c, tag = t0 ++ [c] /\ c <> slash.
Proof.
  intros Hne Htag. destruct (exists_last Hne) as (t0 & c & ->).
  exists t0, c. split; [reflexivity|].
  apply Forall_app in Htag as [_ Hc]. inversion Hc as [|? ? Hc' _]; subst.
  apply allowed_not_slash, tag_char_allowed, Hc'.
Qed.

Lemma month_dir_last : exists d0 c, mdir = d0 ++ [c] /\ c <> slash.
Proof.
  destruct (tag_last (month_tag ctx)) as (t0 & c & Ht & Hc).
  - apply (month_tag_plain ctx).
  - apply month_tag_chars.
  - exists (dir_prefix root ++ t0), c. split; [|exact Hc].
    rewrite month_dir_text, Ht, app_assoc. reflexivity.
Qed.





(** The month bucket is a child of the history root, and a bundle directory
    is a child of the month bucket. *)
Lemma month_node : resolve e mdir = resolve e root ++ [month_tag ctx].
Proof. apply resolve_join, month_tag_plain. Qed.

Lemma bundle_node sub job n limit :
  resolve e (bundle_path posix ctx sub job n limit)
  = resolve e mdir
    ++ [job_dir_prefix ctx n (sanitize sub) ++ slice_to limit (sanitize job)].
Proof. apply resolve_join, bundle_name_plain. Qed.

Lemma mdir_nonempty : nonempty mdir = true.
Proof.
  destruct month_dir_last as (d0 & c & -> & _). destruct d0; reflexivity.
Qed.





Lemma slice_from_skipn (tag s : str) :
  slice_from (len tag + 1) s = skipn (length tag + 1) s.
Proof.
  unfold slice_from, len. destruct (Z.ltb_spec (Z.of_nat (length tag) + 1) 0);
    [lia|]. f_equal. lia.
Qed.

Lemma sequence_field_entry name :
  slash_free name ->
  sequence_field posix ctx (dir_prefix mdir ++ name) = day_field name.
Proof.
  intros Hsf. unfold sequence_field, day_field.
  rewrite slice_from_skipn. cbn [os_path_basename posix].
  rewrite <- (join_relative mdir name) by (apply slash_free_head, Hsf).
  change (Posix.basename (join mdir name)) with (basename (join mdir name)).
  rewrite basename_join by exact Hsf. reflexivity.
Qed.


End PosixAllocator.

Section PosixStages.

Import Posix.

Variable e : env.
Variable ctx : context.

Local Abbreviation posix := (Posix.os e).
Local Abbreviation root := (job_history_dir (Posix.os e) ctx).
Local Abbreviation mdir := (month_dir (Posix.os e) ctx).

(** After lines 43-44 the month bucket is a directory. *)
Lemma ensure_month_dir_isdir fs fs1 :
  ensure_month_dir posix ctx fs = (Returned tt, fs1) ->
  is_dir_node fs1 (resolve e mdir) = true.
Proof.
  unfold ensure_month_dir. cbn [os_path_isdir os_makedirs posix].
  destruct (Posix.isdir e fs mdir) eqn:Hdir.
  - intros [= <-]. unfold Posix.isdir in Hdir.
    apply andb_prop in Hdir as [_ Hdir]. exact Hdir.
  - unfold Posix.makedirs. rewrite (mdir_nonempty e ctx).
    destruct (makedirs_node fs (rev (resolve e mdir))) as [[err|] fs'] eqn:Hmk;
      [discriminate|]. intros [= <-].
    apply makedirs_node_extends in Hmk as (created & [Hd _] & _ & _ & Hin).
    specialize (Hin eq_refl). rewrite rev_involutive in Hin.
    unfold is_dir_node. rewrite Hd.
    rewrite (bool_decide_eq_true_2 (resolve e mdir ∈ created ++ dirs fs)).
    + apply orb_true_r.
    + apply elem_of_app. left. apply list_elem_of_In, Hin.
Qed.

(** What lines 43-44 leave behind. *)
Lemma ensure_month_dir_extends fs o fs1 :
  ensure_month_dir posix ctx fs = (o, fs1) ->
  exists bucket,
    extends fs fs1 bucket
    /\ Forall (fun n => prefix_of n (resolve e mdir)) bucket
    /\ Forall (fun n => exists_node fs n = false) bucket
    /\ (Posix.isdir e fs mdir = true -> bucket = [])
    /\ (exists_node fs (resolve e root) = true -> (length bucket <= 1)%nat).
Proof.
  unfold ensure_month_dir. cbn [os_path_isdir os_makedirs posix].
  destruct (Posix.isdir e fs mdir) eqn:Hdir.
  { intros [= <- <-]. exists []. split; [apply extends_refl|].
    split; [constructor|]. split; [constructor|]. split; [reflexivity|].
    intros _. simpl. lia. }
  unfold Posix.makedirs. rewrite (mdir_nonempty e ctx).
  destruct (makedirs_node fs (rev (resolve e mdir))) as [r fs'] eqn:Hmk.
  intros H.
  assert (fs1 = fs') as -> by (destruct r; congruence).
  pose proof Hmk as Hext.
  apply makedirs_node_extends in Hext as (bucket & Hext & Hpre & Hnew & _).
  rewrite rev_involutive in Hpre.
  exists bucket. split; [exact Hext|]. split; [exact Hpre|].
  split; [exact Hnew|]. split; [discriminate|].
  intros Hroot. rewrite (month_node e ctx) in Hmk.
  rewrite makedirs_node_child in Hmk by exact Hroot.
  apply mkdir_node_inv in Hmk as [(_ & [Hd _] & _)|(err & _ & ->)].
  - destruct Hext as [Hd' _]. rewrite Hd' in Hd.
    apply app_inv_tail in Hd as ->. simpl. lia.
  - destruct Hext as [Hd' _].
    assert (bucket = []) as ->; [|simpl; lia].
    apply (f_equal (@length node)) in Hd'. rewrite length_app in Hd'.
    destruct bucket; [reflexivity|simpl in Hd'; lia].
Qed.

Lemma bundle_path_nonempty sub job n limit :
  nonempty (bundle_path posix ctx sub job n limit) = true.
Proof.
  unfold bundle_path. cbn [os_path_join posix].
  change (Posix.join mdir ?x) with (join mdir x).
  pose proof (bundle_name_plain ctx n sub limit job) as (Hne & Hsf & _).
  rewrite join_relative by (apply slash_free_head, Hsf).
  apply nonempty_true. intros H. apply app_eq_nil in H as [_ H]. congruence.
Qed.

(** Lines 73-75 in a month bucket that is a directory: one [mkdir]. *)
Lemma make_bundle_dir_mkdir fs1 sub job n limit :
  is_dir_node fs1 (resolve e mdir) = true ->
  make_bundle_dir posix (bundle_path posix ctx sub job n limit) fs1 =
    match mkdir_node fs1 (resolve e (bundle_path posix ctx sub job n limit)) with
    | (None, fs2) => (Returned (bundle_path posix ctx sub job n limit), fs2)
    | (Some err, fs2) => (Raised (OSError err), fs2)
    end.
Proof.
  intros Hdir. unfold make_bundle_dir. cbn [os_makedirs posix].
  unfold Posix.makedirs. rewrite bundle_path_nonempty.
  rewrite bundle_node, makedirs_node_child by (apply is_dir_node_exists, Hdir).
  reflexivity.
Qed.

(** The call returns when the first three stages go through and the
    assembled name is free. *)
Lemma create_succeeds sub job fs fs1 n limit :
  ensure_month_dir posix ctx fs = (Returned tt, fs1) ->
  next_number posix ctx fs1 = (Returned n, fs1) ->
  max_job_name_prefix posix ctx (job_dir_prefix ctx n (sanitize sub)) fs1
    = (Returned limit, fs1) ->
  exists_node fs1 (resolve e (bundle_path posix ctx sub job n limit)) = false ->
  create_job_history_bundle_dir posix ctx sub job fs
  = (Returned (bundle_path posix ctx sub job n limit),
     {| dirs := resolve e (bundle_path posix ctx sub job n limit) :: dirs fs1;
        files := files fs1 |}).
Proof.
  intros He Hn Hm Hfree.
  rewrite (create_from_stages _ _ _ _ _ _ _ _ He Hn Hm).
  rewrite make_bundle_dir_mkdir by (eapply ensure_month_dir_isdir, He).
  rewrite mkdir_node_ok; [reflexivity|exact Hfree|].
  rewrite bundle_node, parent_snoc. eapply ensure_month_dir_isdir, He.
Qed.

End PosixStages.

(* ===================================================================== *)
(** * Concrete situations                                                  *)
(* ===================================================================== *)

Module Scenario.

Import Posix.

(** A process in [/work] whose user has the home directory [/home/user];
    bracket expressions denote the characters they list. *)
Definition process : env := {|
  getcwd := lit "/work";
  home_of := fun name => if nonempty name then None else Some (lit "/home/user");
  bracket_matches := fun stuff c => char_in c stuff;
|}.

Definition on_day (y m d : Z) : Datetime.datetime :=
  {| Datetime.year := y; Datetime.month := m; Datetime.day := d |}.

Definition context_of (setting platform : string) (t : Datetime.datetime)
  : context :=
  {| job_history_dir_setting := lit setting;
     now := t;
     sys_platform := lit platform |}.

(** The directories [/tmp], [/work] and [/home/user]. *)
Definition base_fs : filesystem := {|
  dirs := [[lit "tmp"]; [lit "work"]; [lit "home"; lit "user"]; [lit "home"]];
  files := [];
|}.

Definition call (c : context) (submitter job : string) (fs : filesystem)
  : outcome str * filesystem :=
  create_job_history_bundle_dir (Posix.os process) c (lit submitter) (lit job) fs.

Definition call_all (c : context) (requests : list (string * string))
    (fs : filesystem) : list (outcome str) * filesystem :=
  allocate_all (Posix.os process) c
    (map (fun request => (lit (fst request), lit (snd request))) requests) fs.

End Scenario.

(* ===================================================================== *)
(** * Sanitization: the characters that survive                            *)
(* ===================================================================== *)

(** C4.  Sanitization returns exactly the characters of its input that are
    alphanumeric, space, hyphen or underscore, in their original order; no
    slash, backslash or dot survives, so no [..] either; the two
    path-traversal examples of the specification come out as
    [SubmitterThree] and [JobThree]; and the path a call returns is built
    from the sanitized submitter name and the sanitized job name. *)
Theorem sanitize_keeps_allowed_characters :
  (forall s : str,
      sanitize s = List.filter allowed_char s
      /\ ~ In "/"%char (sanitize s)
      /\ ~ In "\"%char (sanitize s)
      /\ ~ In "."%char (sanitize s)
      /\ (forall a b : str, sanitize s <> a ++ lit ".." ++ b))
  /\ sanitize (lit "\..\..\..\SubmitterThree") = lit "SubmitterThree"
  /\ sanitize (lit "./../../Job/Three") = lit "JobThree"
  /\ (forall (FS : Type) (os : os_module FS) (ctx : context)
             (submitter_name job_name p : str) (fs fs' : FS),
         create_job_history_bundle_dir os ctx submitter_name job_name fs
         = (Returned p, fs') ->
         exists (n limit : Z),
           p = os_path_join os (month_dir os ctx)
                 (date_tag ctx ++ lit "-" ++ format_02 n ++ lit "-"
                  ++ sanitize submitter_name ++ lit "-"
                  ++ slice_to limit (sanitize job_name))).
Proof.
  split; [|split; [|split]].
  - intros s. split; [apply sanitize_filter|].
    split; [apply sanitize_excludes; reflexivity|].
    split; [apply sanitize_excludes; reflexivity|].
    split; [apply sanitize_excludes; reflexivity|].
    intros a b H.
    apply (sanitize_excludes "."%char s); [reflexivity|].
    rewrite H. apply in_app_iff. right. left. reflexivity.
  - vm_compute. reflexivity.
  - vm_compute. reflexivity.
  - intros FS os ctx sub job p fs fs' H.
    apply create_returns in H as (fs1 & n & limit & _ & _ & _ & -> & _).
    exists n, limit. unfold bundle_path, job_dir_prefix.
    rewrite <- !app_assoc. reflexivity.
Qed.

(** C8.  Sanitization is idempotent. *)
Theorem sanitize_idempotent (s : str) : sanitize (sanitize s) = sanitize s.
Proof. apply sanitize_fixed, sanitize_allowed. Qed.

(* ===================================================================== *)
(** * The length budget                                                    *)
(* ===================================================================== *)

Section Budget.

Import Posix.




End Budget.

Section Unconstrained.

Import Posix.


Lemma isdir_created (e : env) fs p :
  nonempty p = true ->
  isdir e {| dirs := resolve e p :: dirs fs; files := files fs |} p = true.
Proof.
  intros Hp. unfold isdir, is_dir_node. rewrite Hp. cbn [dirs].
  rewrite (bool_decide_eq_true_2 (resolve e p ∈ resolve e p :: dirs fs))
    by (left). apply orb_true_r.
Qed.


End Unconstrained.

(* ===================================================================== *)
(** * Empty names                                                          *)
(* ===================================================================== *)

Section EmptyNames.

Import Posix.

Lemma endswith_app_same (a p : str) : endswith p (a ++ p) = true.
Proof. unfold endswith. rewrite rev_app_distr. apply startswith_app. Qed.

(** C9.  A job name that is empty after sanitization and truncation is
    accepted: when the first stages go through and the name is free, the call
    returns the month bucket joined with date, sequence number and submitter
    name, ending in the submitter name and its hyphen.  A submitter name that
    sanitizes to the empty text is accepted likewise, and the directory name
    then holds two adjacent hyphens. *)
Theorem empty_names_accepted
    (e : env) (ctx : context) (submitter_name job_name : str)
    (fs fs1 : filesystem) (n limit : Z) :
  ensure_month_dir (Posix.os e) ctx fs = (Returned tt, fs1) ->
  next_number (Posix.os e) ctx fs1 = (Returned n, fs1) ->
  max_job_name_prefix (Posix.os e) ctx
    (job_dir_prefix ctx n (sanitize submitter_name)) fs1
    = (Returned limit, fs1) ->
  (slice_to limit (sanitize job_name) = [] ->
   let name := date_tag ctx ++ lit "-" ++ format_02 n ++ lit "-"
               ++ sanitize submitter_name ++ lit "-" in
   exists_node fs1 (resolve e (month_dir (Posix.os e) ctx) ++ [name]) = false ->
   exists fs2,
     create_job_history_bundle_dir (Posix.os e) ctx submitter_name job_name fs
     = (Returned (join (month_dir (Posix.os e) ctx) name), fs2)
     /\ endswith (sanitize submitter_name ++ lit "-") name = true
     /\ isdir e fs2 (join (month_dir (Posix.os e) ctx) name) = true)
  /\ (sanitize submitter_name = [] ->
      let name := date_tag ctx ++ lit "-" ++ format_02 n ++ lit "--"
                  ++ slice_to limit (sanitize job_name) in
      exists_node fs1 (resolve e (month_dir (Posix.os e) ctx) ++ [name]) = false ->
      exists fs2,
        create_job_history_bundle_dir (Posix.os e) ctx submitter_name job_name fs
        = (Returned (join (month_dir (Posix.os e) ctx) name), fs2)
        /\ isdir e fs2 (join (month_dir (Posix.os e) ctx) name) = true).
Proof.
  intros He Hn Hm.
  pose proof (create_succeeds e ctx submitter_name job_name fs fs1 n limit
                He Hn Hm) as Hok.
  pose proof (bundle_node e ctx submitter_name job_name n limit) as Hnode.
  pose proof (bundle_path_nonempty e ctx submitter_name job_name n limit) as Hne.
  unfold bundle_path in Hok, Hnode, Hne.
  cbn [os_path_join Posix.os] in Hok, Hnode, Hne.
  change (Posix.join ?a ?b) with (join a b) in Hok, Hnode, Hne.
  split.
  - intros Hempty name Hfree. rewrite Hempty, app_nil_r in *.
    assert (job_dir_prefix ctx n (sanitize submitter_name) = name) as Hname.
    { unfold job_dir_prefix, name. reflexivity. }
    rewrite Hname in *. rewrite Hnode in Hok. specialize (Hok Hfree).
    eexists. split; [exact Hok|]. split.
    + unfold name. rewrite !app_assoc. rewrite <- (app_assoc _ (sanitize submitter_name)).
      apply endswith_app_same.
    + rewrite <- Hnode. apply isdir_created, Hne.
  - intros Hsub name Hfree.
    assert (job_dir_prefix ctx n (sanitize submitter_name)
            ++ slice_to limit (sanitize job_name) = name) as Hname.
    { unfold job_dir_prefix, name. rewrite Hsub. rewrite <- !app_assoc.
      reflexivity. }
    rewrite Hname in *. rewrite Hnode in Hok. specialize (Hok Hfree).
    eexists. split; [exact Hok|].
    rewrite <- Hnode. apply isdir_created, Hne.
Qed.

End EmptyNames.

(* ===================================================================== *)
(** * What a call leaves on the filesystem                                 *)
(* ===================================================================== *)

Section Effects.

Import Posix.


(** The reading of "the returned string is absolute for every configured
    value". *)
Definition returns_absolute_path
    (e : env) (ctx : context) (submitter_name job_name : str)
    (fs : filesystem) : Prop :=
  forall p fs',
    create_job_history_bundle_dir (Posix.os e) ctx submitter_name job_name fs
    = (Returned p, fs') ->
    isabs p = true.

Lemma create_posix_inv (e : env) ctx sub job fs o fs' :
  create_job_history_bundle_dir (Posix.os e) ctx sub job fs = (o, fs') ->
  exists o1 fs1,
    ensure_month_dir (Posix.os e) ctx fs = (o1, fs1)
    /\ ((fs' = fs1 /\ forall p, o <> Returned p)
        \/ exists n limit,
             o1 = Returned tt
             /\ mkdir_node fs1 (resolve e (bundle_path (Posix.os e) ctx sub job n limit))
                = (match o with Returned _ => None | Raised (OSError err) => Some err
                                | Raised _ => Some FileExistsError end, fs')
             /\ (forall p, o = Returned p ->
                           p = bundle_path (Posix.os e) ctx sub job n limit)).
Proof.
  rewrite create_stages.
  destruct (ensure_month_dir (Posix.os e) ctx fs) as [[[]|ex] fs1] eqn:He.
  2:{ intros [= <- <-]. exists (Raised ex), fs1. split; [reflexivity|].
      left. split; [reflexivity|discriminate]. }
  intros H. exists (Returned tt), fs1. split; [reflexivity|]. revert H.
  destruct (next_number (Posix.os e) ctx fs1) as [[n|ex] fs2] eqn:Hn;
    pose proof (next_number_state _ _ _ _ _ Hn) as ->.
  2:{ intros [= <- <-]. left. split; [reflexivity|discriminate]. }
  destruct (max_job_name_prefix (Posix.os e) ctx _ fs1) as [[limit|ex] fs3] eqn:Hm;
    pose proof (max_job_name_prefix_state _ _ _ _ _ _ Hm) as ->.
  2:{ intros [= <- <-]. left. split; [reflexivity|discriminate]. }
  rewrite make_bundle_dir_mkdir by (eapply ensure_month_dir_isdir, He).
  destruct (mkdir_node fs1 _) as [[err|] fs2] eqn:Hmk; intros [= <- <-];
    right; exists n, limit; (split; [reflexivity|]); (split; [exact Hmk|]).
  - discriminate.
  - intros p [= <-]. reflexivity.
Qed.


(** C6, as the code has it.  The path a call returns is the expanded
    [settings.job_history_dir] joined with the month tag and the directory
    name; it names a directory that the call created: absent before the
    call, a directory after it.  The returned text is absolute when the
    expanded setting is. *)
Theorem returned_path_names_new_directory
    (e : env) (ctx : context) (submitter_name job_name : str)
    (fs fs' : filesystem) (p : str) :
  create_job_history_bundle_dir (Posix.os e) ctx submitter_name job_name fs
  = (Returned p, fs') ->
  (exists n limit,
      p = join (join (expanduser e (job_history_dir_setting ctx)) (month_tag ctx))
               (job_dir_prefix ctx n (sanitize submitter_name)
                ++ slice_to limit (sanitize job_name)))
  /\ exists_node fs (resolve e p) = false
  /\ isdir e fs' p = true
  /\ (isabs (expanduser e (job_history_dir_setting ctx)) = true ->
      isabs p = true).
Proof.
  intros H. apply create_posix_inv in H as (o1 & fs1 & He & Hrest).
  destruct Hrest as [[_ Hno]|(n & limit & -> & Hmk & Hp)];
    [exfalso; eapply Hno; reflexivity|].
  specialize (Hp p eq_refl). subst p.
  pose proof (ensure_month_dir_extends e ctx fs _ fs1 He) as (bucket & Hext & _).
  apply mkdir_node_inv in Hmk as [(_ & [Hd Hf] & Hfree & _)|(err & Herr & _)];
    [|discriminate].
  split; [exists n, limit; reflexivity|].
  split; [eapply exists_node_mono_false; eassumption|].
  split.
  - unfold isdir, is_dir_node. rewrite bundle_path_nonempty, Hd.
    rewrite (bool_decide_eq_true_2 (_ ∈ _ ++ dirs fs1)) by (left).
    apply orb_true_r.
  - intros Habs. unfold bundle_path, month_dir, job_history_dir.
    cbn [os_path_join os_path_expanduser Posix.os].
    apply isabs_join, isabs_join, Habs.
Qed.

End Effects.

(* ===================================================================== *)
(** * Reading the sequence number                                          *)
(* ===================================================================== *)

Section SequenceParse.

Import Posix.






(** The name the allocator forms for a sequence number and the text after
    it (submitter name, hyphen, job name). *)
Definition allocated_name (ctx : context) (entry : Z * str) : str :=
  date_tag ctx ++ lit "-" ++ format_02 (fst entry) ++ lit "-" ++ snd entry.



End SequenceParse.

(* ===================================================================== *)
(** * The first allocations of a day                                       *)
(* ===================================================================== *)

Section Sequencing.

Import Posix.

Variable e : env.
Variable ctx : context.

Local Abbreviation posix := (Posix.os e).
Local Abbreviation root := (job_history_dir (Posix.os e) ctx).
Local Abbreviation mdir := (month_dir (Posix.os e) ctx).














End Sequencing.

(* ===================================================================== *)
(** * The allocator at concrete inputs                                     *)
(* ===================================================================== *)

Module Cases.

Import Posix Scenario.

Definition jan15 : Datetime.datetime := on_day 2023 1 15.

(** A filesystem given by the paths of its directories, latest first. *)
Definition with_dirs (paths : list (list string)) : filesystem :=
  {| dirs := map (map lit) paths; files := [] |}.

(** [/tmp/jobs/2023-01] holding the given entries. *)
Definition january_bucket (entries : list string) : filesystem :=
  with_dirs (map (fun name => ["tmp"; "jobs"; "2023-01"; name]%string) entries
             ++ [["tmp"; "jobs"; "2023-01"]; ["tmp"; "jobs"]; ["tmp"]]%string).




(** C1 at a failing input: one hundred allocations on one day, then one
    more.  The 99th and the 100th get the sequence numbers 99 and 100; the
    101st gets 100 again, not 101, and with the job name of the 100th it
    raises [FileExistsError]. *)
Theorem hundred_and_first_allocation_repeats_100 :
  let ctx := context_of "/tmp/jobs" "linux" jan15 in
  let '(outcomes, fs100) :=
    call_all ctx (repeat ("s", "a")%string 100) base_fs in
  (nth_error outcomes 0, nth_error outcomes 98, nth_error outcomes 99,
   fst (call ctx "s" "b" fs100), fst (call ctx "s" "a" fs100))
  = (Some (Returned (lit "/tmp/jobs/2023-01/2023-01-15-01-s-a")),
     Some (Returned (lit "/tmp/jobs/2023-01/2023-01-15-99-s-a")),
     Some (Returned (lit "/tmp/jobs/2023-01/2023-01-15-100-s-a")),
     Returned (lit "/tmp/jobs/2023-01/2023-01-15-100-s-b"),
     Raised (OSError FileExistsError)).
Proof. vm_compute. reflexivity. Qed.

(** C2 at a failing input: of the allocator's names for the sequence numbers
    99 and 100 the one for 99 is the lexicographically last, so in a month
    bucket holding both the scan computes 100, not 101. *)
Theorem widened_sequence_number_is_not_latest :
  let ctx := context_of "/tmp/jobs" "linux" jan15 in
  let name (n : Z) : str := job_dir_prefix ctx n (lit "s") ++ lit "a" in
  let fs := january_bucket ["2023-01-15-100-s-a"; "2023-01-15-99-s-a"]%string in
  day_entries process ctx fs = [name 100; name 99]
  /\ last_item (sorted [name 100; name 99]) = Some (name 99)
  /\ next_number (Posix.os process) ctx fs = (Returned 100, fs).
Proof. vm_compute. repeat split. Qed.


(** C6 at an input where it fails: a relative setting gives a relative
    path. *)
Lemma relative_setting_returns_relative_path :
  ~ returns_absolute_path process (context_of "history" "linux" jan15)
      (lit "cli_job") (lit "Test") base_fs.
Proof.
  intros H.
  assert (create_job_history_bundle_dir (Posix.os process)
            (context_of "history" "linux" jan15) (lit "cli_job") (lit "Test")
            base_fs
          = (Returned (lit "history/2023-01/2023-01-15-01-cli_job-Test"),
             snd (call (context_of "history" "linux" jan15) "cli_job" "Test"
                       base_fs))) as Hcall by (vm_compute; reflexivity).
  apply H in Hcall. vm_compute in Hcall. discriminate Hcall.
Qed.


(** A latest entry whose field is not a number: [ValueError], and nothing is
    created. *)
Example malformed_latest_entry_raises :
  let ctx := context_of "/tmp/jobs" "linux" jan15 in
  let fs := january_bucket ["2023-01-15-zz"; "2023-01-15-01-a-b"]%string in
  call ctx "s" "j" fs = (Raised (ValueError (lit "zz")), fs).
Proof. vm_compute. reflexivity. Qed.

(** A history root with a bracket in its text: the glob looks into [/tmp/x],
    not into [/tmp/[x]], so the second allocation of the day gets the
    sequence number 1 again. *)
Example bracket_in_root_restarts_sequence :
  let ctx := context_of "/tmp/[x]" "linux" jan15 in
  fst (call_all ctx [("s", "a"); ("s", "b")]%string base_fs)
  = [Returned (lit "/tmp/[x]/2023-01/2023-01-15-01-s-a");
     Returned (lit "/tmp/[x]/2023-01/2023-01-15-01-s-b")].
Proof. vm_compute. reflexivity. Qed.

End Cases.

Module Witnesses.

Import Posix Scenario Cases.



(** A submitter name and a job name without any allowed character, third
    allocation of the day. *)
Lemma empty_names_accepted_witness :
  let ctx := context_of "/tmp/jobs" "linux" jan15 in
  let fs := january_bucket ["2023-01-15-02-maya-x"; "2023-01-15-01-cli_job-y"]%string in
  ensure_month_dir (Posix.os process) ctx fs = (Returned tt, fs)
  /\ next_number (Posix.os process) ctx fs = (Returned 3, fs)
  /\ max_job_name_prefix (Posix.os process) ctx
       (job_dir_prefix ctx 3 (sanitize (lit "@@@"))) fs = (Returned 128, fs)
  /\ exists fs2,
       create_job_history_bundle_dir (Posix.os process) ctx (lit "@@@") (lit "???") fs
       = (Returned (lit "/tmp/jobs/2023-01/2023-01-15-03--"), fs2).
Proof.
  intros ctx fs.
  assert (ensure_month_dir (Posix.os process) ctx fs = (Returned tt, fs)) as He
    by (vm_compute; reflexivity).
  assert (next_number (Posix.os process) ctx fs = (Returned 3, fs)) as Hn
    by (vm_compute; reflexivity).
  assert (max_job_name_prefix (Posix.os process) ctx
            (job_dir_prefix ctx 3 (sanitize (lit "@@@"))) fs = (Returned 128, fs))
    as Hm by (vm_compute; reflexivity).
  split; [exact He|]. split; [exact Hn|]. split; [exact Hm|].
  destruct (empty_names_accepted process ctx (lit "@@@") (lit "???") fs fs 3 128
              He Hn Hm) as [Hjob _].
  destruct (Hjob eq_refl) as (fs2 & Hcall & _ & _).
  - vm_compute. reflexivity.
  - exists fs2. exact Hcall.
Defined.


(** A setting under the home directory: the returned path is absolute and
    names a directory. *)
Lemma returned_path_names_new_directory_witness :
  let ctx := context_of "~/jobs" "linux" jan15 in
  create_job_history_bundle_dir (Posix.os process) ctx (lit "cli_job")
    (lit "Test CLI Job Name") base_fs
  = (Returned (lit "/home/user/jobs/2023-01/2023-01-15-01-cli_job-Test CLI Job Name"),
     snd (call ctx "cli_job" "Test CLI Job Name" base_fs))
  /\ isabs (lit "/home/user/jobs/2023-01/2023-01-15-01-cli_job-Test CLI Job Name")
     = true
  /\ isdir process (snd (call ctx "cli_job" "Test CLI Job Name" base_fs))
       (lit "/home/user/jobs/2023-01/2023-01-15-01-cli_job-Test CLI Job Name")
     = true.
Proof.
  intros ctx.
  assert (create_job_history_bundle_dir (Posix.os process) ctx (lit "cli_job")
            (lit "Test CLI Job Name") base_fs
          = (Returned (lit "/home/user/jobs/2023-01/2023-01-15-01-cli_job-Test CLI Job Name"),
             snd (call ctx "cli_job" "Test CLI Job Name" base_fs))) as Hcall
    by (vm_compute; reflexivity).
  split; [exact Hcall|].
  destruct (returned_path_names_new_directory process ctx _ _ _ _ _ Hcall)
    as (_ & _ & Hdir & Habs).
  split; [apply Habs; vm_compute; reflexivity|exact Hdir].
Defined.


End Witnesses.

(* ===================================================================== *)
(** * Writing and reading back a sequence number                           *)
(* ===================================================================== *)

Section NumberRoundTrip.

(** The number a run of digits denotes, continuing from [acc]. *)
Definition read_digits (acc : Z) (s : str) : Z :=
  fold_left (fun a c => 10 * a + digit_value c) s acc.

Lemma digits_from_read s acc :
  all_digits s -> digits_from acc s = Some (read_digits acc s).
Proof.
  intros Hs. revert acc. induction Hs as [|c s Hc _ IH]; intros acc; simpl.
  - reflexivity.
  - rewrite Hc. apply IH.
Qed.

Lemma read_digits_shift s acc :
  read_digits acc s = acc * 10 ^ Z.of_nat (length s) + read_digits 0 s.
Proof.
  revert acc. induction s as [|c s IH]; intros acc.
  - simpl. lia.
  - cbn [read_digits fold_left length]. fold (read_digits (10 * acc + digit_value c) s).
    fold (read_digits (10 * 0 + digit_value c) s).
    rewrite IH, (IH (10 * 0 + digit_value c)).
    rewrite Nat2Z.inj_succ, Z.pow_succ_r by lia. lia.
Qed.

Lemma decimal_aux_read fuel n acc :
  0 <= n -> (Z.to_nat n < fuel)%nat ->
  read_digits 0 (decimal_aux fuel n acc)
  = n * 10 ^ Z.of_nat (length acc) + read_digits 0 acc.
Proof.
  revert n acc. induction fuel as [|fuel IH]; intros n acc Hn Hfuel; [lia|].
  cbn [decimal_aux]. pose proof (Z.mod_pos_bound n 10) as Hmod.
  pose proof (Z.div_mod n 10) as Hdiv.
  assert (read_digits 0 (digit_char (n mod 10) :: acc)
          = (n mod 10) * 10 ^ Z.of_nat (length acc) + read_digits 0 acc) as Hcons.
  { cbn [read_digits fold_left]. fold (read_digits (10 * 0 + digit_value (digit_char (n mod 10))) acc).
    rewrite read_digits_shift.
    unfold digit_value. rewrite code_digit_char by lia. f_equal. lia. }
  destruct (Z.ltb_spec n 10) as [Hlt|Hge].
  - rewrite Hcons. rewrite Z.mod_small by lia. reflexivity.
  - rewrite IH.
    + rewrite Hcons. cbn [length]. rewrite Nat2Z.inj_succ, Z.pow_succ_r by lia.
      nia.
    + apply Z.div_pos; lia.
    + assert (n / 10 < n) by (apply Z.div_lt; lia).
      assert (0 <= n / 10) by (apply Z.div_pos; lia). lia.
Qed.

Lemma decimal_read n : 0 <= n -> read_digits 0 (decimal n) = n.
Proof.
  intros Hn. unfold decimal. rewrite decimal_aux_read by lia. simpl. lia.
Qed.

Lemma read_zeros k s : read_digits 0 (repeat "0"%char k ++ s) = read_digits 0 s.
Proof.
  induction k as [|k IH]; [reflexivity|]. exact IH.
Qed.

Lemma format_02_digits n : 0 <= n -> all_digits (format_02 n).
Proof.
  intros Hn. unfold format_02. destruct (Z.ltb_spec n 0); [lia|].
  unfold all_digits. rewrite Forall_app. split; [|apply decimal_digits].
  apply Forall_forall. intros c Hc. apply list_elem_of_In, repeat_spec in Hc.
  subst. reflexivity.
Qed.

Lemma format_02_length n : (2 <= length (format_02 n))%nat.
Proof.
  unfold format_02. destruct (n <? 0).
  - rewrite !length_app, repeat_length. simpl. lia.
  - rewrite length_app, repeat_length. lia.
Qed.

Lemma int_all_digits s :
  s <> [] -> all_digits s -> int s = Some (read_digits 0 s).
Proof.
  intros Hne Hs. unfold int. rewrite strip_digits by assumption.
  destruct s as [|c s]; [congruence|]. inversion Hs as [|? ? Hc Hs']; subst.
  rewrite (is_digit_not_char c "+"), (is_digit_not_char c "-") by auto.
  unfold unsigned_int. rewrite Hc, digits_from_read by exact Hs'.
  cbn [read_digits fold_left]. repeat f_equal.
Qed.

(** [int(format(n, "02"))] is [n], for every [n] from 0 on. *)
Lemma int_format_02_any n : 0 <= n -> int (format_02 n) = Some n.
Proof.
  intros Hn. rewrite int_all_digits.
  - unfold format_02. destruct (Z.ltb_spec n 0); [lia|].
    rewrite read_zeros, decimal_read by lia. reflexivity.
  - pose proof (format_02_length n). destruct (format_02 n); simpl in *; [lia|congruence].
  - apply format_02_digits, Hn.
Qed.

Lemma split1_head_digits (d rest : str) :
  all_digits d -> split1_head "-" (d ++ lit "-" ++ rest) = d.
Proof.
  induction 1 as [|c d Hc _ IH].
  - reflexivity.
  - simpl. rewrite (is_digit_not_char c "-") by auto.
    simpl in IH. rewrite IH. reflexivity.
Qed.

(** ** [int] of a text without a hyphen is not negative *)

Lemma digits_from_nonneg s acc v :
  0 <= acc -> digits_from acc s = Some v -> 0 <= v.
Proof.
  assert (forall c, is_digit c = true -> 0 <= digit_value c) as Hd.
  { intros c Hc. unfold digit_value, is_digit, in_range in *.
    apply andb_prop in Hc as [Hc _]. apply N.leb_le in Hc. lia. }
  remember (length s) as m eqn:Hm. revert s acc Hm.
  induction m as [m IH] using lt_wf_ind. intros s acc Hm Hacc H.
  destruct s as [|c s]; [injection H as <-; exact Hacc|]. simpl in H.
  destruct (is_digit c) eqn:Hc.
  - eapply (IH (length s)); [simpl in Hm; lia|reflexivity| |exact H].
    specialize (Hd c Hc). lia.
  - destruct (Ascii.eqb c "_"); [|discriminate].
    destruct s as [|d s]; [discriminate|].
    destruct (is_digit d) eqn:Hdd; [|discriminate].
    eapply (IH (length s)); [simpl in Hm; lia|reflexivity| |exact H].
    specialize (Hd d Hdd). lia.
Qed.

Lemma unsigned_int_nonneg s v : unsigned_int s = Some v -> 0 <= v.
Proof.
  unfold unsigned_int. destruct s as [|c s]; [discriminate|].
  destruct (is_digit c) eqn:Hc; [|discriminate].
  apply digits_from_nonneg. unfold digit_value, is_digit, in_range in *.
  apply andb_prop in Hc as [Hc _]. apply N.leb_le in Hc. lia.
Qed.

Lemma drop_while_in f (s : str) c : In c (drop_while f s) -> In c s.
Proof.
  induction s as [|d s IH]; [auto|]. simpl. destruct (f d); [|auto].
  intros H. right. apply IH, H.
Qed.

Lemma strip_in f (s : str) c : In c (rstrip f (lstrip f s)) -> In c s.
Proof.
  unfold rstrip, lstrip. intros H. apply in_rev, drop_while_in, in_rev in H.
  apply drop_while_in in H. exact H.
Qed.

Lemma int_nonneg s v : ~ In "-"%char s -> int s = Some v -> 0 <= v.
Proof.
  intros Hno. unfold int.
  destruct (rstrip is_int_space (lstrip is_int_space s)) as [|c t] eqn:Hs;
    [discriminate|].
  destruct (Ascii.eqb_spec c "+").
  { apply unsigned_int_nonneg. }
  destruct (Ascii.eqb_spec c "-") as [->|].
  { exfalso. apply Hno, (strip_in is_int_space). rewrite Hs. left. reflexivity. }
  apply unsigned_int_nonneg.
Qed.

Lemma split1_head_no_sep sep (s : str) : ~ In sep (split1_head sep s).
Proof.
  induction s as [|c s IH]; simpl; [auto|].
  destruct (Ascii.eqb_spec c sep); simpl; [auto|]. intros [H|H]; auto.
Qed.

End NumberRoundTrip.

(* ===================================================================== *)
(** * More about the allocator over any implementation of the interface   *)
(* ===================================================================== *)

Section MoreAllocatorFacts.

Context {FS : Type}.
Variable os : os_module FS.
Variable ctx : context.

Lemma sequence_field_no_hyphen latest_dir :
  ~ In "-"%char (sequence_field os ctx latest_dir).
Proof. apply split1_head_no_sep. Qed.

Lemma next_number_positive fs n fs' :
  next_number os ctx fs = (Returned n, fs') -> 1 <= n.
Proof.
  unfold next_number.
  destruct (last_item (existing_dirs os ctx fs)) as [latest|].
  - destruct (int (sequence_field os ctx latest)) as [v|] eqn:Hv;
      [|discriminate]. intros [= <- _].
    apply int_nonneg in Hv; [lia|apply sequence_field_no_hyphen].
  - intros [= <- _]. lia.
Qed.

Lemma max_job_name_prefix_bounds prefix fs limit fs' :
  max_job_name_prefix os ctx prefix fs = (Returned limit, fs') ->
  1 <= limit <= 128.
Proof.
  unfold max_job_name_prefix, raise, ret.
  destruct (existsb _ _).
  - destruct (Z.ltb_spec
                (Z.min (207 - len (os_path_abspath os
                                     (os_path_join os (month_dir os ctx) prefix)))
                       128) 1); [discriminate|].
    intros [= <- _]. lia.
  - intros [= <- _]. lia.
Qed.

Lemma slice_to_len limit (s : str) :
  0 <= limit -> len (slice_to limit s) = Z.min limit (len s).
Proof.
  intros H. rewrite slice_to_firstn by exact H. unfold len.
  rewrite length_take. lia.
Qed.

(** X4.  The name of every returned path is well formed: its sequence
    number is at least 1, written without a sign in at least two decimal
    digits that [int] reads back as that number, and its job-name part is the
    first [min(limit, len)] characters of the sanitized job name for a limit
    between 1 and 128. *)
Theorem returned_name_is_well_formed
    (submitter_name job_name p : str) (fs fs' : FS) :
  create_job_history_bundle_dir os ctx submitter_name job_name fs
  = (Returned p, fs') ->
  exists (n limit : Z),
    1 <= n
    /\ 1 <= limit <= 128
    /\ p = os_path_join os (month_dir os ctx)
             (date_tag ctx ++ lit "-" ++ format_02 n ++ lit "-"
              ++ sanitize submitter_name ++ lit "-"
              ++ firstn (Z.to_nat limit) (sanitize job_name))
    /\ Forall (fun c => is_digit c = true) (format_02 n)
    /\ (2 <= length (format_02 n))%nat
    /\ int (format_02 n) = Some n
    /\ len (firstn (Z.to_nat limit) (sanitize job_name))
       = Z.min limit (len (sanitize job_name)).
Proof.
  intros H. apply create_returns in H as (fs1 & n & limit & _ & Hn & Hm & -> & _).
  apply next_number_positive in Hn. apply max_job_name_prefix_bounds in Hm.
  exists n, limit. split; [exact Hn|]. split; [exact Hm|].
  rewrite <- slice_to_firstn by lia. split.
  - unfold bundle_path, job_dir_prefix. rewrite <- !app_assoc. reflexivity.
  - split; [apply format_02_digits; lia|]. split; [apply format_02_length|].
    split; [apply int_format_02_any; lia|]. apply slice_to_len. lia.
Qed.

(** X9.  The errors of the stages before the directory is made do not
    depend on the job name: when a call raises [RuntimeError] or [ValueError]
    for one job name, it raises the same error, leaving the same filesystem,
    for every other job name. *)
Theorem early_errors_ignore_job_name
    (submitter_name job_name other_job_name : str) (fs fs' : FS) (e : exn) :
  create_job_history_bundle_dir os ctx submitter_name job_name fs
  = (Raised e, fs') ->
  (forall err, e <> OSError err) ->
  create_job_history_bundle_dir os ctx submitter_name other_job_name fs
  = (Raised e, fs').
Proof.
  rewrite !create_stages. intros H Hnot.
  destruct (ensure_month_dir os ctx fs) as [[[]|ex] fs1] eqn:He.
  2:{ injection H as -> ->. apply ensure_month_dir_raises in He as [err ->].
      exfalso. eapply Hnot. reflexivity. }
  destruct (next_number os ctx fs1) as [[n|ex] fs2] eqn:Hn; [|exact H].
  destruct (max_job_name_prefix os ctx _ fs2) as [[limit|ex] fs3] eqn:Hm;
    [|exact H].
  apply make_bundle_dir_raises in H as [err ->].
  exfalso. eapply Hnot. reflexivity.
Qed.

End MoreAllocatorFacts.

(* ===================================================================== *)
(** * More about sanitization                                              *)
(* ===================================================================== *)

Lemma sanitize_app (a b : str) : sanitize (a ++ b) = sanitize a ++ sanitize b.
Proof.
  induction a as [|c a IH]; [reflexivity|]. simpl.
  rewrite !sanitize_cons, IH. destruct (allowed_char c); reflexivity.
Qed.

Lemma sanitize_shorter (s : str) : (length (sanitize s) <= length s)%nat.
Proof.
  induction s as [|c s IH]; [reflexivity|].
  rewrite sanitize_cons. destruct (allowed_char c); simpl; lia.
Qed.

(** X12.  Sanitization works character by character: the sanitized form of
    a concatenation is the concatenation of the sanitized forms, it is never
    longer than its input, and it returns its input unchanged exactly when
    every character of the input is alphanumeric, a space, a hyphen or an
    underscore. *)
Theorem sanitize_is_characterwise (a b : str) :
  sanitize (a ++ b) = sanitize a ++ sanitize b
  /\ (length (sanitize a) <= length a)%nat
  /\ (sanitize a = a <-> Forall (fun c => allowed_char c = true) a).
Proof.
  split; [apply sanitize_app|]. split; [apply sanitize_shorter|]. split.
  - intros H. rewrite <- H. apply sanitize_allowed.
  - apply sanitize_fixed.
Qed.

(* ===================================================================== *)
(** * More about the allocator on POSIX                                    *)
(* ===================================================================== *)

Section MorePosixFacts.

Import Posix.

Variable e : env.
Variable ctx : context.

Local Abbreviation posix := (Posix.os e).
Local Abbreviation root := (job_history_dir (Posix.os e) ctx).
Local Abbreviation mdir := (month_dir (Posix.os e) ctx).


Lemma day_field_name n rest :
  0 <= n -> day_field ctx (allocated_name ctx (n, rest)) = format_02 n.
Proof.
  intros Hn. unfold day_field, allocated_name. cbn [fst snd].
  replace (length (date_tag ctx) + 1)%nat
    with (length (date_tag ctx ++ lit "-")) by (rewrite length_app; reflexivity).
  rewrite (app_assoc (date_tag ctx)), drop_app_length.
  apply split1_head_digits, format_02_digits, Hn.
Qed.

(** X3.  Line 51 reads back what line 53 wrote, for every sequence number
    from 0 on and whatever the submitter and job names are: in the path
    assembled for the number [n], the text handed to [int] is the formatted
    number, and [int] returns [n]. *)
Theorem sequence_number_round_trip
    (submitter_name job_name : str) (n limit : Z) :
  0 <= n ->
  sequence_field posix ctx (bundle_path posix ctx submitter_name job_name n limit)
  = format_02 n
  /\ int (sequence_field posix ctx
            (bundle_path posix ctx submitter_name job_name n limit))
     = Some n.
Proof.
  intros Hn.
  assert (sequence_field posix ctx
            (bundle_path posix ctx submitter_name job_name n limit)
          = format_02 n) as Hfield.
  { unfold bundle_path. cbn [os_path_join Posix.os].
    change (Posix.join ?a ?b) with (join a b).
    pose proof (bundle_name_plain ctx n submitter_name limit job_name)
      as (_ & Hsf & _).
    rewrite join_relative by (apply slash_free_head, Hsf).
    rewrite sequence_field_entry by exact Hsf.
    replace (job_dir_prefix ctx n (sanitize submitter_name)
             ++ slice_to limit (sanitize job_name))
      with (allocated_name ctx
              (n, sanitize submitter_name ++ lit "-"
                  ++ slice_to limit (sanitize job_name))).
    - apply day_field_name, Hn.
    - unfold allocated_name, job_dir_prefix. cbn [fst snd].
      rewrite <- !app_assoc. reflexivity. }
  split; [exact Hfield|]. rewrite Hfield. apply int_format_02_any, Hn.
Qed.

(** X6.  Whatever the submitter and job names contain, the directory a call
    creates lies exactly two levels below the history root: in the month
    bucket, under one plain name (not empty, without a slash, neither [.] nor
    [..]) of allowed characters, which is the basename of the returned
    path. *)
Theorem bundle_directory_is_child_of_month_bucket
    (submitter_name job_name p : str) (fs fs' : filesystem) :
  create_job_history_bundle_dir posix ctx submitter_name job_name fs
  = (Returned p, fs') ->
  exists name,
    resolve e p = resolve e root ++ [month_tag ctx; name]
    /\ parent (resolve e p) = resolve e mdir
    /\ basename p = name
    /\ plain_name name
    /\ Forall (fun c => allowed_char c = true) name.
Proof.
  intros H. apply create_returns in H as (fs1 & n & limit & _ & _ & _ & -> & _).
  exists (job_dir_prefix ctx n (sanitize submitter_name)
          ++ slice_to limit (sanitize job_name)).
  pose proof (bundle_name_plain ctx n submitter_name limit job_name) as Hplain.
  rewrite bundle_node. split; [|split; [|split; [|split]]].
  - rewrite (month_node e ctx), <- app_assoc. reflexivity.
  - apply parent_snoc.
  - unfold bundle_path. cbn [os_path_join Posix.os].
    change (Posix.join ?a ?b) with (join a b).
    apply basename_join. apply Hplain.
  - exact Hplain.
  - rewrite Forall_app. split.
    + apply job_dir_prefix_allowed.
    + apply slice_to_allowed, sanitize_allowed.
Qed.


(** X10.  A path that exists is never reused: when the first stages go
    through and the assembled path names an existing entry, the call raises
    [FileExistsError] and changes nothing more. *)
Theorem existing_bundle_path_is_not_reused
    (submitter_name job_name : str) (fs fs1 : filesystem) (n limit : Z) :
  ensure_month_dir posix ctx fs = (Returned tt, fs1) ->
  next_number posix ctx fs1 = (Returned n, fs1) ->
  max_job_name_prefix posix ctx
    (job_dir_prefix ctx n (sanitize submitter_name)) fs1
  = (Returned limit, fs1) ->
  exists_node fs1
    (resolve e (bundle_path posix ctx submitter_name job_name n limit)) = true ->
  create_job_history_bundle_dir posix ctx submitter_name job_name fs
  = (Raised (OSError FileExistsError), fs1).
Proof.
  intros He Hn Hm Hexists.
  rewrite (create_from_stages _ _ _ _ _ _ _ _ He Hn Hm).
  rewrite make_bundle_dir_mkdir by (eapply ensure_month_dir_isdir, He).
  unfold mkdir_node. rewrite Hexists. reflexivity.
Qed.

(** X11.  A file in the way stops the allocation before anything is
    created.  With the history root present, a file holding the month
    bucket's name makes every call raise [FileExistsError]; a history root
    that is itself a file makes every call raise [NotADirectoryError].  The
    filesystem is left as it was. *)
Theorem file_in_the_way_blocks_allocation
    (submitter_name job_name : str) (fs : filesystem) :
  exists_node fs (resolve e root) = true ->
  is_dir_node fs (resolve e mdir) = false ->
  (exists_node fs (resolve e mdir) = true ->
   create_job_history_bundle_dir posix ctx submitter_name job_name fs
   = (Raised (OSError FileExistsError), fs))
  /\ (exists_node fs (resolve e mdir) = false ->
      is_dir_node fs (resolve e root) = false ->
      create_job_history_bundle_dir posix ctx submitter_name job_name fs
      = (Raised (OSError NotADirectoryError), fs)).
Proof.
  intros Hroot Hnodir.
  assert (ensure_month_dir posix ctx fs
          = match mkdir_node fs (resolve e root ++ [month_tag ctx]) with
            | (None, fs') => (Returned tt, fs')
            | (Some err, fs') => (Raised (OSError err), fs')
            end) as Hensure.
  { unfold ensure_month_dir. cbn [os_path_isdir os_makedirs Posix.os].
    unfold Posix.isdir, Posix.makedirs. rewrite (mdir_nonempty e ctx).
    change (Posix.is_dir_node fs (Posix.resolve e mdir))
      with (is_dir_node fs (resolve e mdir)). rewrite Hnodir. cbn [andb].
    change (Posix.makedirs_node fs (rev (Posix.resolve e mdir)))
      with (makedirs_node fs (rev (resolve e mdir))).
    rewrite (month_node e ctx), makedirs_node_child by exact Hroot.
    reflexivity. }
  rewrite (month_node e ctx) in *. split.
  - intros Hfile. rewrite create_stages, Hensure. unfold mkdir_node.
    rewrite Hfile. reflexivity.
  - intros Habsent Hrootfile. rewrite create_stages, Hensure. unfold mkdir_node.
    rewrite Habsent, parent_snoc, Hrootfile, Hroot. reflexivity.
Qed.

End MorePosixFacts.

(* ===================================================================== *)
(** * Lengths of absolute paths                                            *)
(* ===================================================================== *)

Section AbspathFacts.

Import Posix.

Variable e : env.






End AbspathFacts.




(* ===================================================================== *)
(** * Path budgets and freshness on POSIX                                  *)
(* ===================================================================== *)

Section BudgetAndFreshness.

Import Posix.

Variable e : env.
Variable ctx : context.

Local Abbreviation posix := (Posix.os e).
Local Abbreviation root := (job_history_dir (Posix.os e) ctx).
Local Abbreviation mdir := (month_dir (Posix.os e) ctx).



(** What a call does to the filesystem: it adds directories and nothing
    else. *)
Lemma create_extends sub job fs o fs' :
  create_job_history_bundle_dir posix ctx sub job fs = (o, fs') ->
  exists created, extends fs fs' created.
Proof.
  intros H. apply create_posix_inv in H as (o1 & fs1 & He & Hrest).
  destruct (ensure_month_dir_extends e ctx fs _ fs1 He) as (bucket & Hext & _).
  destruct Hrest as [[-> _]|(n & limit & _ & Hmk & _)]; [eauto|].
  apply mkdir_node_inv in Hmk as [(_ & Hext' & _)|(err & _ & ->)]; [|eauto].
  eexists. eapply extends_trans; eassumption.
Qed.

(** The directory of a returned path is new: nothing had its place before
    the call, and it is a directory after it. *)
Lemma create_fresh sub job fs p fs' :
  create_job_history_bundle_dir posix ctx sub job fs = (Returned p, fs') ->
  nonempty p = true
  /\ exists_node fs (resolve e p) = false
  /\ In (resolve e p) (dirs fs').
Proof.
  intros H. apply create_posix_inv in H as (o1 & fs1 & He & Hrest).
  destruct (ensure_month_dir_extends e ctx fs _ fs1 He) as (bucket & Hext & _).
  destruct Hrest as [[_ Hno]|(n & limit & _ & Hmk & Hp)];
    [exfalso; eapply Hno; reflexivity|].
  rewrite (Hp p eq_refl) in *.
  apply mkdir_node_inv in Hmk as [(_ & Hext' & Habsent & _)|(err & Herr & _)];
    [|discriminate].
  split; [apply bundle_path_nonempty|]. split.
  - eapply exists_node_mono_false; eassumption.
  - destruct Hext' as [-> _]. left. reflexivity.
Qed.

Lemma allocate_all_extends requests fs outcomes fs' :
  allocate_all posix ctx requests fs = (outcomes, fs') ->
  exists created, extends fs fs' created.
Proof.
  revert fs outcomes fs'.
  induction requests as [|[sub job] rest IH]; intros fs outcomes fs'.
  - intros [= <- <-]. exists []. apply extends_refl.
  - cbn [allocate_all].
    destruct (create_job_history_bundle_dir posix ctx sub job fs)
      as [o fs1] eqn:Hc.
    destruct (allocate_all posix ctx rest fs1) as [later fs2] eqn:Hrest.
    intros [= <- <-].
    destruct (create_extends _ _ _ _ _ Hc) as (c1 & Hext1).
    destruct (IH _ _ _ Hrest) as (c2 & Hext2).
    eexists. eapply extends_trans; eassumption.
Qed.

(** The paths among the outcomes of a run of calls. *)
Definition returned_paths (outcomes : list (outcome str)) : list str :=
  omap (fun o => match o with Returned p => Some p | Raised _ => None end)
       outcomes.

(** X5.  Calls one after the other never hand out the same directory
    twice: the paths returned in a run of calls are pairwise distinct, even
    as nodes of the filesystem, each names a directory at the end of the run,
    and nothing had its place before the run.  This holds for every clock
    value, platform, history root and starting filesystem. *)
Theorem returned_paths_are_distinct
    (requests : list (str * str)) (fs : filesystem)
    (outcomes : list (outcome str)) (fs' : filesystem) :
  allocate_all posix ctx requests fs = (outcomes, fs') ->
  List.NoDup (map (resolve e) (returned_paths outcomes))
  /\ List.NoDup (returned_paths outcomes)
  /\ forall p, In p (returned_paths outcomes) ->
               isdir e fs' p = true /\ exists_node fs (resolve e p) = false.
Proof.
  intros H.
  assert (List.NoDup (map (resolve e) (returned_paths outcomes))
          /\ forall p, In p (returned_paths outcomes) ->
                       isdir e fs' p = true
                       /\ exists_node fs (resolve e p) = false) as [Hnodup Hall].
  2:{ split; [exact Hnodup|]. split; [|exact Hall].
      eapply NoDup_map_inv, Hnodup. }
  revert fs outcomes fs' H.
  induction requests as [|[sub job] rest IH]; intros fs outcomes fs'.
  - intros [= <- <-]. split; [constructor|intros p []].
  - cbn [allocate_all].
    destruct (create_job_history_bundle_dir posix ctx sub job fs)
      as [o fs1] eqn:Hc.
    destruct (allocate_all posix ctx rest fs1) as [later fs2] eqn:Hrest.
    intros [= <- <-].
    destruct (IH _ _ _ Hrest) as [Hnodup Hall].
    destruct (create_extends _ _ _ _ _ Hc) as (c1 & Hext1).
    destruct (allocate_all_extends _ _ _ _ Hrest) as (c2 & Hext2).
    assert (forall p, In p (returned_paths later) ->
                      isdir e fs2 p = true
                      /\ exists_node fs (resolve e p) = false) as Hlater.
    { intros p Hin. destruct (Hall p Hin) as [Hdir Habsent].
      split; [exact Hdir|]. eapply exists_node_mono_false; eassumption. }
    destruct o as [p|ex]; [|split; assumption].
    change (returned_paths (Returned p :: later))
      with (p :: returned_paths later).
    destruct (create_fresh _ _ _ _ _ Hc) as (Hne & Habsent & Hin).
    assert (is_dir_node fs1 (resolve e p) = true) as Hdir.
    { unfold is_dir_node. apply orb_true_iff. right.
      apply bool_decide_eq_true, list_elem_of_In, Hin. }
    split.
    + cbn [map]. constructor; [|exact Hnodup].
      intros Hdup. apply in_map_iff in Hdup as (q & Hq & Hqin).
      destruct (Hall q Hqin) as [_ Hqabsent]. rewrite Hq in Hqabsent.
      rewrite (is_dir_node_exists _ _ Hdir) in Hqabsent. discriminate.
    + intros q [<-|Hq]; [|auto]. split; [|exact Habsent].
      unfold isdir. rewrite Hne. cbn [andb].
      eapply is_dir_node_mono; eassumption.
Qed.

End BudgetAndFreshness.

(* ===================================================================== *)
(** * The further properties at concrete inputs                            *)
(* ===================================================================== *)

Module Coverage.

Import Posix Scenario Cases.



(** Three calls under [/tmp], two of them with the same names and one with
    path-traversal names. *)
Definition three_requests : list (string * string) :=
  [("cli_job", "Test CLI Job Name"); ("cli_job", "Test CLI Job Name");
   ("../../etc", "../passwd")]%string.

(** The month bucket [/tmp/jobs/2023-01] held by a file. *)
Definition bucket_is_file : filesystem :=
  {| dirs := [[lit "tmp"; lit "jobs"]; [lit "tmp"]];
     files := [[lit "tmp"; lit "jobs"; lit "2023-01"]] |}.



(** A sequence number of three digits is read back. *)
Lemma sequence_number_round_trip_witness :
  let ctx := context_of "/tmp/jobs" "linux" jan15 in
  0 <= 100
  /\ int (sequence_field (Posix.os process) ctx
            (lit "/tmp/jobs/2023-01/2023-01-15-100-maya-scene"))
     = Some 100.
Proof.
  intros ctx. split; [lia|].
  change (lit "/tmp/jobs/2023-01/2023-01-15-100-maya-scene")
    with (bundle_path (Posix.os process) ctx (lit "maya") (lit "scene") 100 128).
  apply (sequence_number_round_trip process ctx (lit "maya") (lit "scene") 100 128).
  lia.
Defined.

(** The first call under [/tmp]: number 1 and the whole job name. *)
Lemma returned_name_is_well_formed_witness :
  let ctx := context_of "/tmp" "linux" jan15 in
  exists p fs',
    call ctx "cli_job" "Test CLI Job Name" base_fs = (Returned p, fs')
    /\ exists n limit, 1 <= n /\ 1 <= limit <= 128 /\ int (format_02 n) = Some n.
Proof.
  intros ctx.
  set (r := call ctx "cli_job" "Test CLI Job Name" base_fs).
  assert (r = (Returned (lit "/tmp/2023-01/2023-01-15-01-cli_job-Test CLI Job Name"),
               snd r)) as Hcall by (vm_compute; reflexivity).
  eexists. exists (snd r). split; [exact Hcall|].
  destruct (returned_name_is_well_formed (Posix.os process) ctx _ _ _ _ _ Hcall)
    as (n & limit & Hn & Hlimit & _ & _ & _ & Hint & _).
  exists n, limit. auto.
Defined.

(** The three calls return three different paths. *)
Lemma returned_paths_are_distinct_witness :
  let calls := call_all (context_of "/tmp" "linux" jan15) three_requests base_fs in
  List.NoDup (returned_paths (fst calls))
  /\ length (returned_paths (fst calls)) = 3%nat.
Proof.
  intros calls.
  destruct (returned_paths_are_distinct process
              (context_of "/tmp" "linux" jan15)
              (map (fun request => (lit (fst request), lit (snd request)))
                   three_requests)
              base_fs (fst calls) (snd calls)) as (_ & Hnodup & _).
  - vm_compute. reflexivity.
  - split; [exact Hnodup|]. vm_compute. reflexivity.
Defined.

(** Path-traversal names stay inside the month bucket. *)
Lemma bundle_directory_is_child_of_month_bucket_witness :
  let ctx := context_of "/tmp" "linux" jan15 in
  exists p fs',
    call ctx "../../etc" "../passwd" base_fs = (Returned p, fs')
    /\ parent (resolve process p) = [lit "tmp"; lit "2023-01"].
Proof.
  intros ctx.
  set (r := call ctx "../../etc" "../passwd" base_fs).
  assert (r = (Returned (lit "/tmp/2023-01/2023-01-15-01-etc-passwd"), snd r))
    as Hcall by (vm_compute; reflexivity).
  eexists. exists (snd r). split; [exact Hcall|].
  destruct (bundle_directory_is_child_of_month_bucket process ctx _ _ _ _ _ Hcall)
    as (name & _ & Hparent & _).
  rewrite Hparent. vm_compute. reflexivity.
Defined.



(** A malformed latest entry: the error is the same for another job
    name. *)
Lemma early_errors_ignore_job_name_witness :
  let ctx := context_of "/tmp/jobs" "linux" jan15 in
  let fs := january_bucket ["2023-01-15-xx-bad"]%string in
  call ctx "maya" "x" fs = (Raised (ValueError (lit "xx")), fs)
  /\ call ctx "maya" "another job" fs = (Raised (ValueError (lit "xx")), fs).
Proof.
  intros ctx fs.
  assert (call ctx "maya" "x" fs = (Raised (ValueError (lit "xx")), fs))
    as Hcall by (vm_compute; reflexivity).
  split; [exact Hcall|].
  apply (early_errors_ignore_job_name (Posix.os process) ctx (lit "maya")
           (lit "x") (lit "another job") fs fs _ Hcall).
  intros err. discriminate.
Defined.

(** An entry without zero padding is the latest one, and the path for the
    number after it exists. *)
Lemma existing_bundle_path_is_not_reused_witness :
  let ctx := context_of "/tmp/jobs" "linux" jan15 in
  let fs := january_bucket ["2023-01-15-02-maya-x"; "2023-01-15-1-zzz"]%string in
  next_number (Posix.os process) ctx fs = (Returned 2, fs)
  /\ call ctx "maya" "x" fs = (Raised (OSError FileExistsError), fs).
Proof.
  intros ctx fs.
  assert (next_number (Posix.os process) ctx fs = (Returned 2, fs)) as Hn
    by (vm_compute; reflexivity).
  split; [exact Hn|].
  apply (existing_bundle_path_is_not_reused process ctx (lit "maya") (lit "x")
           fs fs 2 128).
  - vm_compute. reflexivity.
  - exact Hn.
  - vm_compute. reflexivity.
  - vm_compute. reflexivity.
Defined.

(** A file named [2023-01] under the history root. *)
Lemma file_in_the_way_blocks_allocation_witness :
  let ctx := context_of "/tmp/jobs" "linux" jan15 in
  exists_node bucket_is_file
    (resolve process (job_history_dir (Posix.os process) ctx)) = true
  /\ is_dir_node bucket_is_file
       (resolve process (month_dir (Posix.os process) ctx)) = false
  /\ call ctx "maya" "x" bucket_is_file
     = (Raised (OSError FileExistsError), bucket_is_file).
Proof.
  intros ctx.
  assert (exists_node bucket_is_file
            (resolve process (job_history_dir (Posix.os process) ctx)) = true)
    as Hroot by (vm_compute; reflexivity).
  assert (is_dir_node bucket_is_file
            (resolve process (month_dir (Posix.os process) ctx)) = false)
    as Hnodir by (vm_compute; reflexivity).
  split; [exact Hroot|]. split; [exact Hnodir|].
  destruct (file_in_the_way_blocks_allocation process ctx (lit "maya") (lit "x")
              bucket_is_file Hroot Hnodir) as [Hfile _].
  apply Hfile. vm_compute. reflexivity.
Defined.


End Coverage.
